(** * Simple chess game: the rule engine of [simple_chess_game.py]

    A shallow embedding of the board primitives, the move validator, the
    castling and en-passant handlers and the game-state updates, followed by
    the properties established about them.

    Python integers are unbounded, so coordinates are [Z].  A [str] is a list
    of characters and a board (a tuple of [str]) is a list of rows.  A Python
    exception is an [Err] of the [result] monad; [and]/[or] short-circuit. *)

From Stdlib Require Import String Ascii ZArith List Bool Lia.
From Stdlib Require DecimalString.
Import ListNotations.
Open Scope Z_scope.

(** ** Exceptions *)

(** [IndexError] is Python's own exception for a subscript out of range;
    [OutOfBounds] is the failure of the support module's cell read. *)
Inductive error : Type :=
  | IndexError
  | OutOfBounds.

Inductive result (A : Type) : Type :=
  | Ok (a : A)
  | Err (e : error).

Arguments Ok {A} a.
Arguments Err {A} e.

Definition bind {A B : Type} (m : result A) (k : A -> result B) : result B :=
  match m with
  | Ok a => k a
  | Err e => Err e
  end.

Notation "x <- m ;; k" := (bind m (fun x => k))
  (at level 61, m at next level, right associativity).

(** [a and b] in a condition: [b] is evaluated only when [a] is true. *)
Definition and_then (a b : result bool) : result bool :=
  x <- a ;; if x then b else Ok false.

(** [a or b] in a condition: [b] is evaluated only when [a] is false. *)
Definition or_else (a b : result bool) : result bool :=
  x <- a ;; if x then Ok true else b.

(** [not a]. *)
Definition not_ (a : result bool) : result bool :=
  x <- a ;; Ok (negb x).

Infix "&&&" := and_then (at level 40, left associativity).
Infix "|||" := or_else (at level 50, left associativity).

(** ** Python sequences *)

Module Py.

Definition len {A : Type} (l : list A) : Z := Z.of_nat (length l).

(** [l[i]]: a negative subscript counts from the end; anything outside
    [-len, len) raises. *)
Definition index {A : Type} (l : list A) (i : Z) : result A :=
  let j := if i <? 0 then i + len l else i in
  if (0 <=? j) && (j <? len l) then
    match nth_error l (Z.to_nat j) with
    | Some x => Ok x
    | None => Err IndexError
    end
  else Err IndexError.

(** The clamping of a slice bound: negative bounds count from the end and
    everything is cut to [0, len]. *)
Definition slice_bound (n i : Z) : nat :=
  Z.to_nat (if i <? 0 then Z.max 0 (i + n) else Z.min i n).

(** [l[:j]] *)
Definition slice_to {A : Type} (l : list A) (j : Z) : list A :=
  firstn (slice_bound (len l) j) l.

(** [l[j:]] *)
Definition slice_from {A : Type} (l : list A) (j : Z) : list A :=
  skipn (slice_bound (len l) j) l.

(** [range(n)] *)
Definition range (n : Z) : list Z :=
  map Z.of_nat (seq 0 (Z.to_nat n)).

End Py.

(** ** Data model *)

Definition str : Type := list ascii.
Definition Board : Type := list str.
Definition Position : Type := (Z * Z)%type.
Definition Move : Type := (Position * Position)%type.

Definition position_eqb (p q : Position) : bool :=
  (fst p =? fst q) && (snd p =? snd q).

Definition move_eqb (m n : Move) : bool :=
  position_eqb (fst m) (fst n) && position_eqb (snd m) (snd n).

(** A board of exactly 8 rows of exactly 8 characters. *)
Definition wf_board (board : Board) : Prop :=
  length board = 8%nat /\ Forall (fun row => length row = 8%nat) board.

Definition in_bounds (p : Position) : Prop :=
  0 <= fst p < 8 /\ 0 <= snd p < 8.

(** A board written as a tuple of string literals. *)
Definition board_of (rows : list string) : Board := map list_ascii_of_string rows.

(** [board[row][col]] *)
Definition board_cell (board : Board) (position : Position) : result ascii :=
  board_row <- Py.index board (fst position) ;;
  Py.index board_row (snd position).

(** ** The support module's constants

    [simple_chess_game.py] takes these from [chess_game_support], which is
    not part of the sources at hand. *)

(** Modelled from the spec: the constant [BOARD_SIZE] of the absent
    [chess_game_support]; the board is an 8 x 8 grid. *)
Definition BOARD_SIZE : Z := 8.

(** Modelled from the spec: the cell contents named by the absent
    [chess_game_support].  A cell is the empty marker or one of 12 piece
    identities; [initial_state] and [clear_position] fix the characters:
    row 0 is black's back rank (lower case), row 7 white's (upper case), and
    ['.'] is the empty marker. *)
Definition EMPTY : ascii := "."%char.
(** Modelled from the spec: white's pawn, as on row 6 of [initial_state]. *)
Definition WHITE_PAWN : ascii := "P"%char.
(** Modelled from the spec: white's knight. *)
Definition WHITE_KNIGHT : ascii := "N"%char.
(** Modelled from the spec: white's bishop. *)
Definition WHITE_BISHOP : ascii := "B"%char.
(** Modelled from the spec: white's rook. *)
Definition WHITE_ROOK : ascii := "R"%char.
(** Modelled from the spec: white's queen. *)
Definition WHITE_QUEEN : ascii := "Q"%char.
(** Modelled from the spec: white's king. *)
Definition WHITE_KING : ascii := "K"%char.
(** Modelled from the spec: black's pawn, as on row 1 of [initial_state]. *)
Definition BLACK_PAWN : ascii := "p"%char.
(** Modelled from the spec: black's knight. *)
Definition BLACK_KNIGHT : ascii := "n"%char.
(** Modelled from the spec: black's bishop. *)
Definition BLACK_BISHOP : ascii := "b"%char.
(** Modelled from the spec: black's rook. *)
Definition BLACK_ROOK : ascii := "r"%char.
(** Modelled from the spec: black's queen. *)
Definition BLACK_QUEEN : ascii := "q"%char.
(** Modelled from the spec: black's king. *)
Definition BLACK_KING : ascii := "k"%char.

(** Modelled from the spec: [WHITE_PIECES] of the absent
    [chess_game_support], the six piece identities of side white. *)
Definition WHITE_PIECES : list ascii :=
  [WHITE_PAWN; WHITE_KNIGHT; WHITE_BISHOP; WHITE_ROOK; WHITE_QUEEN; WHITE_KING].
(** Modelled from the spec: [BLACK_PIECES] of the absent
    [chess_game_support], the six piece identities of side black. *)
Definition BLACK_PIECES : list ascii :=
  [BLACK_PAWN; BLACK_KNIGHT; BLACK_BISHOP; BLACK_ROOK; BLACK_QUEEN; BLACK_KING].

(** [piece in pieces] *)
Definition piece_in (piece : ascii) (pieces : list ascii) : bool :=
  existsb (Ascii.eqb piece) pieces.

(** Modelled from the spec: [out_of_bounds] of the absent
    [chess_game_support], the negation of the spec's [isInBounds]: a position
    is a (row, column) pair, each in [0, 8). *)
Definition out_of_bounds (position : Position) : bool :=
  negb ((0 <=? fst position) && (fst position <? BOARD_SIZE)
        && (0 <=? snd position) && (snd position <? BOARD_SIZE)).

(** Modelled from the spec: [piece_at_position] of the absent
    [chess_game_support], the spec's [pieceAt]: it fails with OutOfBounds if
    the position is off-grid, and reads the cell otherwise. *)
Definition piece_at_position (position : Position) (board : Board) : result ascii :=
  if out_of_bounds position then Err OutOfBounds
  else board_cell board position.

(** ** Board primitives (lines 5-116) *)

Definition initial_state : Board :=
  board_of [ "rnbqkbnr"; "pppppppp"; "........"; "........";
             "........"; "........"; "PPPPPPPP"; "RNBQKBNR" ]%string.

(** The body of the [for row_num in range(BOARD_SIZE)] loop of
    [change_position], over the row numbers still to visit; the rows are
    produced in the order in which the loop appends them. *)
Fixpoint change_position_rows (board : Board) (position : Position)
    (character : str) (row_nums : list Z) : result Board :=
  match row_nums with
  | [] => Ok []
  | row_num :: rest =>
      old <- Py.index board row_num ;;
      let row :=
        if row_num =? fst position
        then Py.slice_to old (snd position) ++ character
               ++ Py.slice_from old (snd position + 1)
        else old in
      new_board <- change_position_rows board position character rest ;;
      Ok (row :: new_board)
  end.

Definition change_position (board : Board) (position : Position)
    (character : str) : result Board :=
  change_position_rows board position character (Py.range BOARD_SIZE).

Definition clear_position (board : Board) (position : Position) : result Board :=
  change_position board position [EMPTY].

Definition update_board (board : Board) (move : Move) : result Board :=
  let '(row, col) := fst move in
  piece <- board_cell board (row, col) ;;
  cleared <- clear_position board (fst move) ;;
  change_position cleared (snd move) [piece].

(** ** The support module's rule functions

    [get_possible_moves] and [is_in_check] are imported from
    [chess_game_support] as well.  The engine takes them as parameters
    through this interface ([get_possible_moves] returns a set, read here
    through membership only); [SpecSupport] below gives the instance the
    spec describes. *)
Class Support : Type := {
  get_possible_moves : Position -> Board -> result (list Position);
  is_in_check : Board -> bool -> result bool
}.

(** [position in moves] *)
Definition position_in (position : Position) (moves : list Position) : bool :=
  existsb (position_eqb position) moves.

(** [move in moves] *)
Definition move_in (move : Move) (moves : list Move) : bool :=
  existsb (move_eqb move) moves.

(** ** Move validation (lines 119-155) *)

Definition is_current_players_piece (piece : ascii) (whites_turn : bool) : bool :=
  if whites_turn then piece_in piece WHITE_PIECES else piece_in piece BLACK_PIECES.

Section Engine.

Context `{Support}.

Definition is_move_valid (move : Move) (board : Board) (whites_turn : bool)
    : result bool :=
  Ok (negb (out_of_bounds (fst move) && out_of_bounds (snd move)))
  &&& Ok (negb (position_eqb (fst move) (snd move)))
  &&& (piece <- piece_at_position (fst move) board ;;
       Ok (is_current_players_piece piece whites_turn))
  &&& ((piece <- piece_at_position (snd move) board ;; Ok (Ascii.eqb piece EMPTY))
       ||| not_ (piece <- piece_at_position (snd move) board ;;
                 Ok (is_current_players_piece piece whites_turn)))
  &&& (moves <- get_possible_moves (fst move) board ;;
       Ok (position_in (snd move) moves))
  &&& not_ (moved <- update_board board move ;; is_in_check moved whites_turn).

(** ** Castling (lines 260-335) *)

Definition legal_castle_move : list Move :=
  [ ((7, 4), (7, 6)); ((7, 4), (7, 2)); ((0, 4), (0, 6)); ((0, 4), (0, 2)) ].

(** [piece_at_position(position, board) is EMPTY]: one-character strings
    are unique objects in CPython, so the identity test is an equality test
    on the character. *)
Definition is_EMPTY (position : Position) (board : Board) : result bool :=
  piece <- piece_at_position position board ;; Ok (Ascii.eqb piece EMPTY).

(** The [for i in range(squares)] loop of [is_valid_castle_attempt], over
    the values of [i] still to visit: the king is put on each square in
    turn and the first check found returns False. *)
Fixpoint not_in_check_all_the_way (board : Board) (whites_turn : bool)
    (from_position : Position) (direction : Z) (steps : list Z) : result bool :=
  match steps with
  | [] => Ok true
  | i :: rest =>
      let move_to_square :=
        (from_position, (fst from_position, snd from_position + i * direction)) in
      moved <- update_board board move_to_square ;;
      checked <- is_in_check moved whites_turn ;;
      if checked then Ok false
      else not_in_check_all_the_way board whites_turn from_position direction rest
  end.

Definition is_valid_castle_attempt (move : Move) (board : Board)
    (whites_turn : bool) (castling_info : list bool) : result bool :=
  let '(from_position, to_position) := move in
  let king := if whites_turn then WHITE_KING else BLACK_KING in
  let rook := if whites_turn then WHITE_ROOK else BLACK_ROOK in
  outer <- (piece <- piece_at_position from_position board ;;
            Ok (Ascii.eqb piece king))
           &&& Ok (move_in move legal_castle_move)
           &&& not_ (Py.index castling_info 1) ;;
  if outer then
    side <-
      (if snd from_position <? snd to_position then
         (* moved to right *)
         rook_moved <- Py.index castling_info 2 ;;
         no_pieces_between <-
           is_EMPTY (fst from_position, snd from_position + 1) board
           &&& is_EMPTY (fst from_position, snd from_position + 2) board ;;
         Ok ((fst from_position, 7), 1, 4, rook_moved, no_pieces_between)
       else
         (* moved to left *)
         rook_moved <- Py.index castling_info 0 ;;
         no_pieces_between <-
           is_EMPTY (fst from_position, snd from_position - 1) board
           &&& is_EMPTY (fst from_position, snd from_position - 2) board
           &&& is_EMPTY (fst from_position, snd from_position - 3) board ;;
         Ok ((fst from_position, 0), -1, 5, rook_moved, no_pieces_between)) ;;
    let '(rook_position, direction, squares, rook_moved, no_pieces_between) := side in
    inner <- (piece <- piece_at_position rook_position board ;;
              Ok (Ascii.eqb piece rook))
             &&& Ok (negb rook_moved)
             &&& Ok no_pieces_between ;;
    if inner then
      not_in_check_all_the_way board whites_turn from_position direction
        (Py.range squares)
    else Ok false
  else Ok false.

End Engine.

Definition perform_castling (move : Move) (board : Board) : result Board :=
  let '(kings_row, kings_end_col) := snd move in
  let rooks_move :=
    if kings_end_col =? 6
    then ((kings_row, 7), (kings_row, 5))
    else ((kings_row, 0), (kings_row, 3)) in
  kings_moved <- update_board board move ;;
  update_board kings_moved rooks_move.

(** ** En passant (lines 338-390) *)

Definition is_valid_en_passant (move : Move) (board : Board) (whites_turn : bool)
    (en_passant_position : option Position) : result bool :=
  let '(from_position, to_position) := move in
  let '(direction, self_pawn, other_pawn, should_start_at_row) :=
    if whites_turn then (-1, WHITE_PAWN, BLACK_PAWN, 3)
    else (1, BLACK_PAWN, WHITE_PAWN, 4) in
  Ok (match en_passant_position with Some _ => true | None => false end)
  &&& Ok (match en_passant_position with
          | Some position => position_eqb position (snd move)
          | None => false
          end)
  &&& Ok (fst to_position =? fst from_position + direction)
  &&& Ok (fst from_position =? should_start_at_row)
  &&& (piece <- piece_at_position from_position board ;;
       Ok (Ascii.eqb piece self_pawn))
  &&& (piece <- piece_at_position (fst from_position, snd to_position) board ;;
       Ok (Ascii.eqb piece other_pawn)).

Definition perform_en_passant (move : Move) (board : Board) (whites_turn : bool)
    : result Board :=
  let other_pawn_position := (fst (fst move), snd (snd move)) in
  cleared <- clear_position board other_pawn_position ;;
  update_board cleared move.

(** ** Game-state updates (lines 393-448) *)

(** [l[i] = x] for an index the list has. *)
Definition list_assign {A : Type} (l : list A) (i : nat) (x : A) : list A :=
  firstn i l ++ x :: skipn (S i) l.

(** The [for i, moved in enumerate(castling_info_list)] loop of
    [update_castling_info], over the indices still to visit; the list is the
    loop's state and is assigned to at the index being visited only. *)
Fixpoint update_castling_info_loop (move : Move)
    (rook_king_rook_position : list Position)
    (castling_info_list : list bool) (indices : list nat) : result (list bool) :=
  match indices with
  | [] => Ok castling_info_list
  | i :: rest =>
      match nth_error castling_info_list i with
      | None => Ok castling_info_list
      | Some moved =>
          if moved then
            update_castling_info_loop move rook_king_rook_position
              castling_info_list rest
          else
            home <- Py.index rook_king_rook_position (Z.of_nat i) ;;
            if position_eqb (fst move) home then
              update_castling_info_loop move rook_king_rook_position
                (list_assign castling_info_list i true) rest
            else
              update_castling_info_loop move rook_king_rook_position
                castling_info_list rest
      end
  end.

Definition update_castling_info (move : Move) (whites_turn : bool)
    (castling_info : list bool) : result (list bool) :=
  let row := if whites_turn then 7 else 0 in
  let rook_king_rook_position := [ (row, 0); (row, 4); (row, 7) ] in
  update_castling_info_loop move rook_king_rook_position castling_info
    (seq 0 (length castling_info)).

Definition update_en_passant_position (move : Move) (board : Board)
    (whites_turn : bool) : result (option Position) :=
  let '(from_position, to_position) := move in
  let '(direction, pawn, should_at_row) :=
    if whites_turn then (-1, WHITE_PAWN, 4) else (1, BLACK_PAWN, 3) in
  eligible <- (piece <- piece_at_position to_position board ;;
               Ok (Ascii.eqb piece pawn))
              &&& Ok (fst to_position =? should_at_row)
              &&& Ok (fst to_position - fst from_position =? 2 * direction) ;;
  if eligible then Ok (Some (fst from_position + direction, snd from_position))
  else Ok None.

(** ** The rule functions as the spec describes them *)

Module SpecSupport.

(** Modelled from the spec: the content of a cell for the rule functions,
    with everything off the grid read as empty (no piece stands there). *)
Definition cell (board : Board) (position : Position) : ascii :=
  match piece_at_position position board with
  | Ok piece => piece
  | Err _ => EMPTY
  end.

(** Modelled from the spec: a piece identity of side white. *)
Definition is_white (piece : ascii) : bool := piece_in piece WHITE_PIECES.
(** Modelled from the spec: a piece identity of side black. *)
Definition is_black (piece : ascii) : bool := piece_in piece BLACK_PIECES.

(** Modelled from the spec: [other] is a piece of the side opposing
    [mover]. *)
Definition is_enemy (mover other : ascii) : bool :=
  (is_white mover && is_black other) || (is_black mover && is_white other).

(** Modelled from the spec: the square at a (row, column) offset. *)
Definition shift (position : Position) (offset : Z * Z) : Position :=
  (fst position + fst offset, snd position + snd offset).

(** Modelled from the spec: the occupancy filter, an in-bounds square that
    is empty or holds an enemy of [mover]; a square occupied by the mover's
    own side is never a destination. *)
Definition empty_or_enemy (board : Board) (mover : ascii)
    (position : Position) : bool :=
  negb (out_of_bounds position)
  && (Ascii.eqb (cell board position) EMPTY
      || is_enemy mover (cell board position)).

(** Modelled from the spec: ray-casting from [position] (excluded) in
    direction [offset]; a ray stops at the first occupied square, including
    that square if it is an enemy and excluding it if it is a friendly
    piece.  A ray has at most 7 squares on the board. *)
Fixpoint ray (steps : nat) (board : Board) (mover : ascii)
    (position : Position) (offset : Z * Z) : list Position :=
  match steps with
  | O => []
  | S steps' =>
      let next := shift position offset in
      if out_of_bounds next then []
      else if Ascii.eqb (cell board next) EMPTY
      then next :: ray steps' board mover next offset
      else if is_enemy mover (cell board next) then [next] else []
  end.

(** Modelled from the spec: the orthogonal directions (rook, queen). *)
Definition orthogonal : list (Z * Z) := [ (-1, 0); (1, 0); (0, -1); (0, 1) ].
(** Modelled from the spec: the diagonal directions (bishop, queen). *)
Definition diagonal : list (Z * Z) := [ (-1, -1); (-1, 1); (1, -1); (1, 1) ].
(** Modelled from the spec: the 8 fixed L-shaped offsets of the knight. *)
Definition knight_offsets : list (Z * Z) :=
  [ (-2, -1); (-2, 1); (-1, -2); (-1, 2); (1, -2); (1, 2); (2, -1); (2, 1) ].

(** Modelled from the spec: the destinations of a bishop, rook or queen,
    the rays along its directions. *)
Definition rays (board : Board) (mover : ascii) (position : Position)
    (offsets : list (Z * Z)) : list Position :=
  flat_map (ray 8 board mover position) offsets.

(** Modelled from the spec: the destinations of a knight or king, its
    offsets filtered to in-bounds squares that are empty or hold an enemy. *)
Definition steps_to (board : Board) (mover : ascii) (position : Position)
    (offsets : list (Z * Z)) : list Position :=
  filter (empty_or_enemy board mover) (map (shift position) offsets).

(** Modelled from the spec: the direction a pawn moves in; white's pawns
    start on row 6 and move towards row 0 (rank 8), black's the other way. *)
Definition pawn_direction (pawn : ascii) : Z :=
  if is_white pawn then -1 else 1.

(** Modelled from the spec: the side's starting rank for pawns. *)
Definition pawn_start_row (pawn : ascii) : Z :=
  if is_white pawn then 6 else 1.

(** Modelled from the spec: the attack geometry of a pawn, the two diagonal
    squares ahead of it. *)
Definition pawn_attacks (pawn : ascii) (position : Position) : list Position :=
  filter (fun target => negb (out_of_bounds target))
    [ shift position (pawn_direction pawn, -1);
      shift position (pawn_direction pawn, 1) ].

(** Modelled from the spec: the destinations of a pawn: one square forward
    onto an empty square; two squares forward from the starting rank if both
    squares are empty; diagonal capture onto an occupied enemy square. *)
Definition pawn_moves (board : Board) (pawn : ascii) (position : Position)
    : list Position :=
  let one := shift position (pawn_direction pawn, 0) in
  let two := shift position (2 * pawn_direction pawn, 0) in
  let free target :=
    negb (out_of_bounds target) && Ascii.eqb (cell board target) EMPTY in
  (if free one then [one] else [])
  ++ (if (fst position =? pawn_start_row pawn) && free one && free two
      then [two] else [])
  ++ filter (fun target => is_enemy pawn (cell board target))
       (pawn_attacks pawn position).

(** Modelled from the spec: the piece is of the kind whose two identities
    are [white] and [black]. *)
Definition is_kind (piece white black : ascii) : bool :=
  Ascii.eqb piece white || Ascii.eqb piece black.

(** Modelled from the spec: [get_possible_moves] of the absent
    [chess_game_support], the spec's [pseudoLegalDestinations]: per piece
    kind, the squares it could move to given only board occupancy. *)
Definition get_possible_moves (position : Position) (board : Board)
    : result (list Position) :=
  piece <- piece_at_position position board ;;
  Ok (if is_kind piece WHITE_PAWN BLACK_PAWN then pawn_moves board piece position
      else if is_kind piece WHITE_KNIGHT BLACK_KNIGHT
      then steps_to board piece position knight_offsets
      else if is_kind piece WHITE_BISHOP BLACK_BISHOP
      then rays board piece position diagonal
      else if is_kind piece WHITE_ROOK BLACK_ROOK
      then rays board piece position orthogonal
      else if is_kind piece WHITE_QUEEN BLACK_QUEEN
      then rays board piece position (diagonal ++ orthogonal)
      else if is_kind piece WHITE_KING BLACK_KING
      then steps_to board piece position (diagonal ++ orthogonal)
      else []).

(** Modelled from the spec: the squares the piece on [position] attacks,
    its destinations, except that a pawn attacks diagonally only. *)
Definition attacks (board : Board) (position : Position) : list Position :=
  let piece := cell board position in
  if is_kind piece WHITE_PAWN BLACK_PAWN then pawn_attacks piece position
  else match get_possible_moves position board with
       | Ok moves => moves
       | Err _ => []
       end.

(** Modelled from the spec: the 64 squares of the grid. *)
Definition all_positions : list Position :=
  list_prod (Py.range BOARD_SIZE) (Py.range BOARD_SIZE).

(** Modelled from the spec: [is_in_check] of the absent
    [chess_game_support], the spec's [isInCheck]: true iff some enemy
    piece's destination set contains the side's king's position, with the
    attack geometry for pawns. *)
Definition is_in_check (board : Board) (whites_turn : bool) : result bool :=
  let king := if whites_turn then WHITE_KING else BLACK_KING in
  let enemies :=
    filter (fun position =>
              is_current_players_piece (cell board position) (negb whites_turn))
      all_positions in
  Ok (existsb (fun target => Ascii.eqb (cell board target) king)
        (flat_map (attacks board) enemies)).

End SpecSupport.

(** Modelled from the spec: the rule functions of the absent
    [chess_game_support] as an instance of the interface. *)
#[export] Instance spec_support : Support := {
  get_possible_moves := SpecSupport.get_possible_moves;
  is_in_check := SpecSupport.is_in_check
}.

(** ** Game over: the search for a valid move (lines 158-193) *)

Section GameOver.

Context `{Support}.

(** The [for move in moves] loop of [can_move] for one origin, over the
    destinations still to visit.  [get_possible_moves] returns a set, whose
    iteration order Python does not fix; the list is visited in its own
    order, and what is proved below of a True or a False result holds for
    every order. *)
Fixpoint any_valid_move (board : Board) (whites_turn : bool)
    (position : Position) (moves : list Position) : result bool :=
  match moves with
  | [] => Ok false
  | move :: rest =>
      valid <- is_move_valid (position, move) board whites_turn ;;
      if valid then Ok true
      else any_valid_move board whites_turn position rest
  end.

(** The two nested [for row ... for col ...] loops of [can_move], over the
    positions still to visit, with the early [return True]. *)
Fixpoint can_move_from (board : Board) (whites_turn : bool)
    (positions : list Position) : result bool :=
  match positions with
  | [] => Ok false
  | position :: rest =>
      piece <- piece_at_position position board ;;
      if is_current_players_piece piece whites_turn then
        moves <- get_possible_moves position board ;;
        found <- any_valid_move board whites_turn position moves ;;
        if found then Ok true
        else can_move_from board whites_turn rest
      else can_move_from board whites_turn rest
  end.

Definition can_move (board : Board) (whites_turn : bool) : result bool :=
  can_move_from board whites_turn
    (list_prod (Py.range BOARD_SIZE) (Py.range BOARD_SIZE)).

Definition is_stalemate (board : Board) (whites_turn : bool) : result bool :=
  not_ (is_in_check board whites_turn) &&& not_ (can_move board whites_turn).

End GameOver.

(** ** Text *)

(** [a == b] on strings. *)
Fixpoint str_eqb (a b : str) : bool :=
  match a, b with
  | [], [] => true
  | x :: a', y :: b' => Ascii.eqb x y && str_eqb a' b'
  | _, _ => false
  end.

(** [text in texts] for a tuple of strings. *)
Definition str_in (text : str) (texts : list str) : bool :=
  existsb (str_eqb text) texts.

(** [ord(c)] *)
Definition ord (c : ascii) : Z := Z.of_nat (nat_of_ascii c).

(** [c.lower()] for a character up to U+00FF: the letters A-Z and the
    Latin-1 capitals U+00C0-U+00DE (the sign U+00D7 apart) move up by 32. *)
Definition lower (c : ascii) : ascii :=
  let n := nat_of_ascii c in
  if ((65 <=? n) && (n <=? 90)
      || (192 <=? n) && (n <=? 222) && negb (n =? 215))%nat
  then ascii_of_nat (n + 32)
  else c.

(** [s.upper()] for a string of ASCII characters: the letters a-z move down
    by 32.  [attempt_promotion] applies it to ['q'], ['n'], ['r'] or ['b']
    only. *)
Definition upper (s : str) : str :=
  map (fun c =>
         let n := nat_of_ascii c in
         if ((97 <=? n) && (n <=? 122))%nat then ascii_of_nat (n - 32) else c)
      s.

(** ** Exceptions beyond the board's *)

(** [Raised e] is an exception of the board layer; [ValueError] is raised
    by [int], [EOFError] by [input] at the end of the input, [TypeError] by
    the use of [None] as a position. *)
Inductive exception : Type :=
  | Raised (e : error)
  | ValueError
  | TypeError
  | EOFError.

Inductive outcome (A : Type) : Type :=
  | Return (a : A)
  | Raise (x : exception).

Arguments Return {A} a.
Arguments Raise {A} x.

Definition outcome_bind {A B : Type} (m : outcome A) (k : A -> outcome B)
    : outcome B :=
  match m with
  | Return a => k a
  | Raise x => Raise x
  end.

Definition of_result {A : Type} (r : result A) : outcome A :=
  match r with
  | Ok a => Return a
  | Err e => Raise (Raised e)
  end.

Notation "x <~ m ;; k" := (outcome_bind m (fun x => k))
  (at level 61, m at next level, right associativity).

(** [int(c)] for a one-character string: the decimal digits 0-9 have a
    value, every other character up to U+00FF raises ValueError. *)
Definition int (c : ascii) : outcome Z :=
  let n := nat_of_ascii c in
  if ((48 <=? n) && (n <=? 57))%nat then Return (Z.of_nat (n - 48))
  else Raise ValueError.

(** ** The support module's format checks

    [valid_position_format], [valid_move_format] and [HELP_MESSAGE] are
    imported from [chess_game_support] too and are parameters here. *)
Class Format : Type := {
  valid_position_format : str -> bool;
  valid_move_format : str -> bool;
  HELP_MESSAGE : string;
  (** Modelled from the spec: the driver supplies "a parsed Move (two
      in-bounds Positions)": a text accepted as a move has its first two and
      its last two characters accepted as positions. *)
  valid_move_positions : forall user_input,
    valid_move_format user_input = true ->
    valid_position_format (Py.slice_to user_input 2) = true
    /\ valid_position_format (Py.slice_from user_input (-2)) = true
}.

(** ** Notation to positions (lines 31-62) *)

Section Notation.

Context `{Format}.

(** A function that falls off its end returns [None]. *)
Definition square_to_position (square : str) : outcome (option Position) :=
  if valid_position_format square then
    file <~ of_result (Py.index square 0) ;;
    let y := ord (lower file) - ord "a"%char in
    rank <~ of_result (Py.index square 1) ;;
    digit <~ int rank ;;
    let x := BOARD_SIZE - digit in
    Return (Some (x, y))
  else Return None.

(** [user_input[0:2]] is [user_input[:2]]. *)
Definition process_move (user_input : str)
    : outcome (option Position * option Position) :=
  from_position <~ square_to_position (Py.slice_to user_input 2) ;;
  to_position <~ square_to_position (Py.slice_from user_input (-2)) ;;
  Return (from_position, to_position).

End Notation.

(** ** The console *)

(** What the program writes: the text of a [print] (which ends the line) and
    the prompt of an [input]. *)
Inductive event : Type :=
  | Printed (text : string)
  | Prompted (text : string).

(** The lines still to be read and everything written so far, oldest
    first. *)
Record console : Type := {
  stdin : list str;
  stdout : list event
}.

Definition io (A : Type) : Type := console -> outcome A * console.

Definition ret {A : Type} (a : A) : io A := fun c => (Return a, c).

Definition io_bind {A B : Type} (m : io A) (k : A -> io B) : io B :=
  fun c =>
    match m c with
    | (Return a, c') => k a c'
    | (Raise x, c') => (Raise x, c')
    end.

Notation "x <<- m ;; k" := (io_bind m (fun x => k))
  (at level 61, m at next level, right associativity).

(** A computation of the engine run at the console. *)
Definition lift {A : Type} (m : outcome A) : io A := fun c => (m, c).

(** [print(text)] *)
Definition print (text : string) : io unit :=
  fun c => (Return tt, {| stdin := stdin c; stdout := stdout c ++ [Printed text] |}).

(** [input(prompt)]: the prompt is written, then a line is read; at the end
    of the input EOFError is raised. *)
Definition input (prompt : string) : io str :=
  fun c =>
    let written := stdout c ++ [Prompted prompt] in
    match stdin c with
    | [] => (Raise EOFError, {| stdin := []; stdout := written |})
    | line :: rest => (Return line, {| stdin := rest; stdout := written |})
    end.

(** The character of the escape [\n]. *)
Definition newline : string := String "010"%char EmptyString.

(** [f'{n}'] for an integer. *)
Definition decimal (n : Z) : string :=
  DecimalString.NilZero.string_of_int (Z.to_int n).

(** ** Display (lines 17-28) *)

(** The [for row in board] loop of [print_board], over the rows still to
    print. *)
Fixpoint print_rows (rows : list str) (row_num : Z) : io unit :=
  match rows with
  | [] => ret tt
  | row :: rest =>
      _ <<- print (string_of_list_ascii row ++ "  " ++ decimal row_num) ;;
      print_rows rest (row_num - 1)
  end.

Definition print_board (board : Board) : io unit :=
  _ <<- print_rows board BOARD_SIZE ;;
  print (newline ++ "abcdefgh").

(** ** Promotion (lines 225-257) *)

Definition ask_1 : string := "What piece would you like (q, n, r, b)? ".
Definition ask_2 : string := "Not a valid piece. " ++ ask_1.

Definition promotion_pieces : list str :=
  [ ["q"%char]; ["n"%char]; ["r"%char]; ["b"%char] ].

(** The [while True] loop of [attempt_promotion]: the answer at hand is
    checked and, when it is not a legal piece, the next line is asked for.
    Every turn of the loop reads one line, so the recursion is on the lines
    left. *)
Fixpoint ask_until_legal (promotion : str) (lines : list str)
    (written : list event) : outcome str * console :=
  if str_in promotion promotion_pieces
  then (Return promotion, {| stdin := lines; stdout := written |})
  else
    match lines with
    | [] => (Raise EOFError,
             {| stdin := []; stdout := written ++ [Prompted ask_2] |})
    | line :: rest => ask_until_legal line rest (written ++ [Prompted ask_2])
    end.

(** The [for col in range(BOARD_SIZE)] loop of [attempt_promotion], over the
    columns still to visit; the first pawn found is promoted and ends the
    function. *)
Fixpoint attempt_promotion_cols (board : Board) (whites_turn : bool)
    (row : Z) (pawn : ascii) (cols : list Z) : io Board :=
  match cols with
  | [] => ret board
  | col :: rest =>
      piece <<- lift (of_result (piece_at_position (row, col) board)) ;;
      if Ascii.eqb piece pawn then
        promotion <<- input ask_1 ;;
        promotion <<- (fun c => ask_until_legal promotion (stdin c) (stdout c)) ;;
        let promotion := if whites_turn then upper promotion else promotion in
        lift (of_result (change_position board (row, col) promotion))
      else attempt_promotion_cols board whites_turn row pawn rest
  end.

Definition attempt_promotion (board : Board) (whites_turn : bool) : io Board :=
  let '(row, pawn) := if whites_turn then (0, WHITE_PAWN) else (7, BLACK_PAWN) in
  attempt_promotion_cols board whites_turn row pawn (Py.range BOARD_SIZE).

(** ** The game (lines 196-222 and 451-507) *)

(** The local variables of [main]. *)
Module Game.
Record state : Type := {
  board : Board;
  whites_turn : bool;
  en_passant_position : option Position;
  castling_info_white : list bool;
  castling_info_black : list bool
}.
End Game.

(** How a turn of the [while True] loop of [main] ends: with [continue] or
    the end of the body, or with [break]; either way with the local
    variables as they then are. *)
Inductive turn : Type :=
  | Continue (game : Game.state)
  | Break (game : Game.state).

Section Driver.

Context `{Support} `{Format}.

Definition check_game_over (board : Board) (whites_turn : bool) : io bool :=
  checked <<- lift (of_result (is_in_check board whites_turn)) ;;
  if checked then
    movable <<- lift (of_result (can_move board whites_turn)) ;;
    if movable then
      _ <<- print (if whites_turn then newline ++ "White is in check"
                   else newline ++ "Black is in check") ;;
      ret false
    else
      _ <<- print (newline ++ "Checkmate") ;;
      ret true
  else
    stalemate <<- lift (of_result (is_stalemate board whites_turn)) ;;
    if stalemate then
      _ <<- print (newline ++ "Stalemate") ;;
      ret true
    else ret false.

(** The three-way choice of the board transformation in [main]: the
    ordinary move first, then en passant, then castling; [None] when the
    move is none of them. *)
Definition perform_move (move : Move) (game : Game.state)
    (castling_info : list bool) : result (option Board) :=
  let board := Game.board game in
  let whites_turn := Game.whites_turn game in
  valid <- is_move_valid move board whites_turn ;;
  if valid then
    moved <- update_board board move ;; Ok (Some moved)
  else
    en_passant <- is_valid_en_passant move board whites_turn
                    (Game.en_passant_position game) ;;
    if en_passant then
      moved <- perform_en_passant move board whites_turn ;; Ok (Some moved)
    else
      castle <- is_valid_castle_attempt move board whites_turn castling_info ;;
      if castle then
        moved <- perform_castling move board ;; Ok (Some moved)
      else Ok None.

(** The body of the [while True] loop of [main]. *)
Definition main_turn (game : Game.state) : io turn :=
  let board := Game.board game in
  let whites_turn := Game.whites_turn game in
  _ <<- print_board board ;;
  over <<- check_game_over board whites_turn ;;
  if over then ret (Break game)
  else
    let castling_info :=
      if whites_turn then Game.castling_info_white game
      else Game.castling_info_black game in
    move <<- input (if whites_turn then newline ++ "White's move: "
                    else newline ++ "Black's move: ") ;;
    if str_eqb move ["h"%char] || str_eqb move ["H"%char] then
      _ <<- print HELP_MESSAGE ;;
      ret (Continue game)
    else if str_eqb move ["q"%char] || str_eqb move ["Q"%char] then
      confirmation <<- input "Are you sure you want to quit? " ;;
      if str_eqb confirmation ["y"%char] || str_eqb confirmation ["Y"%char]
      then ret (Break game)
      else ret (Continue game)
    else if negb (valid_move_format move) then
      _ <<- print ("Invalid move" ++ newline) ;;
      ret (Continue game)
    else
      parsed <<- lift (process_move move) ;;
      match parsed with
      | (Some from_position, Some to_position) =>
          let move := (from_position, to_position) in
          performed <<- lift (of_result (perform_move move game castling_info)) ;;
          match performed with
          | None =>
              _ <<- print ("Invalid move" ++ newline) ;;
              ret (Continue game)
          | Some moved =>
              (* after performing move *)
              promoted <<- attempt_promotion moved whites_turn ;;
              updated <<- lift (of_result
                                  (update_castling_info move whites_turn
                                     castling_info)) ;;
              target <<- lift (of_result
                                 (update_en_passant_position move promoted
                                    whites_turn)) ;;
              ret (Continue
                     {| Game.board := promoted;
                        Game.whites_turn := negb whites_turn;
                        Game.en_passant_position := target;
                        Game.castling_info_white :=
                          if whites_turn then updated
                          else Game.castling_info_white game;
                        Game.castling_info_black :=
                          if whites_turn then Game.castling_info_black game
                          else updated |})
          end
      | _ =>
          (* not reached: [valid_move_positions] *)
          lift (Raise TypeError)
      end.

(** The [while True] loop of [main].  A turn that does not leave the loop
    reads at least one line, so [turns] need not exceed the number of lines
    by more than one; [None] stands for a loop cut short by [turns]. *)
Fixpoint main_loop (turns : nat) (game : Game.state)
    : console -> option (outcome Game.state * console) :=
  fun c =>
    match turns with
    | O => None
    | S turns' =>
        match main_turn game c with
        | (Return (Continue game'), c') => main_loop turns' game' c'
        | (Return (Break game'), c') => Some (Return game', c')
        | (Raise x, c') => Some (Raise x, c')
        end
    end.

Definition new_game : Game.state :=
  {| Game.board := initial_state;
     Game.whites_turn := true;
     Game.en_passant_position := None;
     Game.castling_info_white := [false; false; false];
     Game.castling_info_black := [false; false; false] |}.

(** [main()] on the lines of [lines]: how it ends (the local variables when
    the loop is left, or the exception) and what it wrote. *)
Definition main (lines : list str) : option (outcome Game.state * console) :=
  main_loop (S (length lines)) new_game {| stdin := lines; stdout := [] |}.

End Driver.

(** ** The format checks of algebraic notation *)

Module SpecFormat.

(** Modelled from the spec: a file letter of algebraic notation, a to h in
    either case (column 0 is file a; a Position has its column in [0, 8)). *)
Definition is_file (c : ascii) : bool :=
  let n := nat_of_ascii (lower c) in ((97 <=? n) && (n <=? 104))%nat.

(** Modelled from the spec: a rank digit of algebraic notation, 1 to 8 (row
    0 is rank 8; a Position has its row in [0, 8)). *)
Definition is_rank (c : ascii) : bool :=
  let n := nat_of_ascii c in ((49 <=? n) && (n <=? 56))%nat.

(** Modelled from the spec: [valid_position_format] of the absent
    [chess_game_support]: a square of algebraic notation, a file letter
    followed by a rank digit. *)
Definition valid_position_format (square : str) : bool :=
  match square with
  | [file; rank] => is_file file && is_rank rank
  | _ => false
  end.

(** Modelled from the spec: [valid_move_format] of the absent
    [chess_game_support]: two squares with a blank between them, the
    ['position1 position2'] of the docstring of [process_move]. *)
Definition valid_move_format (user_input : str) : bool :=
  match user_input with
  | [file1; rank1; blank; file2; rank2] =>
      Ascii.eqb blank " "%char
      && valid_position_format [file1; rank1]
      && valid_position_format [file2; rank2]
  | _ => false
  end.

(** Modelled from the spec: [HELP_MESSAGE] of the absent
    [chess_game_support]; its text is not known and stands for itself. *)
Definition HELP_MESSAGE : string := "HELP_MESSAGE".

End SpecFormat.

(** ** Example positions *)

(** Black's rook on h8 bears on white's rook on h1 down the open h-file;
    e1, f1 and g1 are not attacked. *)
Definition kingside_position : Board :=
  board_of [ "....k..r"; "........"; "........"; "........";
             "........"; "........"; "........"; "....K..R" ]%string.

(** Black's rook on b8 bears on b1 down the open b-file; e1, d1 and c1 are
    not attacked. *)
Definition queenside_position : Board :=
  board_of [ ".r..k..."; "........"; "........"; "........";
             "........"; "........"; "........"; "R...K..." ]%string.

(** After 1. f3 e5 2. g4 Qh4: black's queen on h4 bears on e1 along the
    diagonal. *)
Definition fools_mate_position : Board :=
  board_of [ "rnb.kbnr"; "pppp.ppp"; "........"; "....p...";
             "......Pq"; ".....P.."; "PPPPP..P"; "RNBQKBNR" ]%string.

(** After 1. a4 h6 2. a5 f5: black's f-pawn has just stepped two squares and
    white's a-pawn stands on the same rank, five files away. *)
Definition far_pawn_position : Board :=
  board_of [ "rnbqkbnr"; "ppppp.p."; ".......p"; "P....p..";
             "........"; "........"; ".PPPPPPP"; "RNBQKBNR" ]%string.

(** After 1. e4 a6 2. e5 f5: black's f-pawn has just stepped two squares
    past white's pawn on e5; the target is f6. *)
Definition en_passant_example : Board :=
  board_of [ "rnbqkbnr"; ".pppp.pp"; "p......."; "....Pp..";
             "........"; "........"; "PPPP.PPP"; "RNBQKBNR" ]%string.

(** White's king and king's rook at home with f1 and g1 empty and no enemy
    piece bearing on the first rank. *)
Definition castle_example : Board :=
  board_of [ "....k..."; "pppppppp"; "........"; "........";
             "........"; "........"; "PPPPPPPP"; "R...K..R" ]%string.

(** White's pawn has reached c8; black's king stands on a8. *)
Definition promotion_example : Board :=
  board_of [ "k.P....."; "........"; "........"; "........";
             "........"; "........"; "........"; "....K..." ]%string.

(** The local variables of [main] after 1. e4. *)
Definition game_after_e4 : Game.state :=
  {| Game.board := board_of [ "rnbqkbnr"; "pppppppp"; "........"; "........";
                              "....P..."; "........"; "PPPP.PPP"; "RNBQKBNR" ]%string;
     Game.whites_turn := false;
     Game.en_passant_position := Some (5, 4);
     Game.castling_info_white := [false; false; false];
     Game.castling_info_black := [false; false; false] |}.

(** ** Vocabulary of the properties *)

(** A committed move is an eligible double pawn step when the piece now on
    its destination is the mover's own pawn, standing on row 4 for white and
    row 3 for black, and the move advanced exactly two rows in the mover's
    direction. *)
Definition eligible_double_step (move : Move) (board : Board)
    (whites_turn : bool) : Prop :=
  board_cell board (snd move) = Ok (if whites_turn then WHITE_PAWN else BLACK_PAWN)
  /\ fst (snd move) = (if whites_turn then 4 else 3)
  /\ fst (snd move) - fst (fst move) = 2 * (if whites_turn then -1 else 1).

(** The conditions of a castle attempt that do not involve check: the moving
    piece is the side's king, the move is one of the four canonical castle
    moves, king and rook are unmoved according to [castling_info], the rook
    stands on its corner and every square strictly between king and rook is
    empty. *)
Definition castle_preconditions (move : Move) (board : Board)
    (whites_turn : bool) (castling_info : list bool) : Prop :=
  let king := if whites_turn then WHITE_KING else BLACK_KING in
  let rook := if whites_turn then WHITE_ROOK else BLACK_ROOK in
  let row := fst (fst move) in
  piece_at_position (fst move) board = Ok king
  /\ In move legal_castle_move
  /\ Py.index castling_info 1 = Ok false
  /\ (snd (snd move) = 6 ->
      Py.index castling_info 2 = Ok false
      /\ piece_at_position (row, 7) board = Ok rook
      /\ piece_at_position (row, 5) board = Ok EMPTY
      /\ piece_at_position (row, 6) board = Ok EMPTY)
  /\ (snd (snd move) = 2 ->
      Py.index castling_info 0 = Ok false
      /\ piece_at_position (row, 0) board = Ok rook
      /\ piece_at_position (row, 3) board = Ok EMPTY
      /\ piece_at_position (row, 2) board = Ok EMPTY
      /\ piece_at_position (row, 1) board = Ok EMPTY).

(** The corner the rook of a castle move comes from and the square it goes
    to: the h-file and the f-file when the king lands on column 6, the
    a-file and the d-file otherwise. *)
Definition rook_corner (move : Move) : Position :=
  (fst (snd move), if snd (snd move) =? 6 then 7 else 0).

Definition rook_destination (move : Move) : Position :=
  (fst (snd move), if snd (snd move) =? 6 then 5 else 3).

(** The shape the local variables of [main] keep: a well-formed board and
    two triples of castling flags. *)
Definition game_ok (game : Game.state) : Prop :=
  wf_board (Game.board game)
  /\ length (Game.castling_info_white game) = 3%nat
  /\ length (Game.castling_info_black game) = 3%nat.

(** The castling flags of the side to move. *)
Definition movers_castling_info (game : Game.state) : list bool :=
  if Game.whites_turn game then Game.castling_info_white game
  else Game.castling_info_black game.

(** * Properties *)

(** ** The error monad *)

Lemma bind_Ok {A B : Type} (m : result A) (k : A -> result B) (b : B) :
  bind m k = Ok b -> exists a, m = Ok a /\ k a = Ok b.
Proof. destruct m as [a|e]; simpl; intros E; [eauto | discriminate]. Qed.

Lemma and_then_true (a b : result bool) :
  a &&& b = Ok true <-> a = Ok true /\ b = Ok true.
Proof.
  unfold and_then. split.
  - destruct a as [[|]|e]; simpl; intros E; try discriminate. auto.
  - intros [-> ->]. reflexivity.
Qed.

Lemma not_true (a : result bool) : not_ a = Ok true <-> a = Ok false.
Proof.
  unfold not_. split.
  - destruct a as [[|]|e]; simpl; intros E; try discriminate. reflexivity.
  - intros ->. reflexivity.
Qed.

(** ** Python subscripts and slices *)

Lemma index_nonneg {A : Type} (l : list A) (i : Z) :
  0 <= i ->
  Py.index l i = match nth_error l (Z.to_nat i) with
                 | Some x => Ok x
                 | None => Err IndexError
                 end.
Proof.
  intros Hi. unfold Py.index, Py.len.
  destruct (i <? 0) eqn:Eneg; [apply Z.ltb_lt in Eneg; lia|].
  destruct (0 <=? i) eqn:E0; [|apply Z.leb_gt in E0; lia]. simpl.
  destruct (i <? Z.of_nat (length l)) eqn:Elt; [reflexivity|].
  apply Z.ltb_ge in Elt.
  assert (Hnone : nth_error l (Z.to_nat i) = None)
    by (apply nth_error_None; lia).
  rewrite Hnone. reflexivity.
Qed.

Lemma index_of_nat {A : Type} (l : list A) (i : nat) :
  Py.index l (Z.of_nat i) = match nth_error l i with
                            | Some x => Ok x
                            | None => Err IndexError
                            end.
Proof. rewrite index_nonneg by lia. rewrite Nat2Z.id. reflexivity. Qed.

Lemma index_negative {A : Type} (l : list A) (i : Z) :
  - Py.len l <= i < 0 -> Py.index l i = Py.index l (i + Py.len l).
Proof.
  intros Hi. unfold Py.index.
  destruct (i <? 0) eqn:Eneg; [|apply Z.ltb_ge in Eneg; lia].
  destruct (i + Py.len l <? 0) eqn:E; [apply Z.ltb_lt in E; lia|].
  reflexivity.
Qed.

Lemma index_raises {A : Type} (l : list A) (i : Z) :
  i < - Py.len l \/ Py.len l <= i -> Py.index l i = Err IndexError.
Proof.
  intros Hi. unfold Py.index.
  destruct (i <? 0) eqn:Eneg.
  - apply Z.ltb_lt in Eneg.
    destruct (0 <=? i + Py.len l) eqn:E0; [apply Z.leb_le in E0|reflexivity].
    unfold Py.len in *. lia.
  - apply Z.ltb_ge in Eneg.
    destruct (i <? Py.len l) eqn:Elt; [apply Z.ltb_lt in Elt; lia|].
    rewrite andb_false_r. reflexivity.
Qed.

(** ** Assignment at an index *)

Lemma length_list_assign {A : Type} (l : list A) (i : nat) (x : A) :
  (i < length l)%nat -> length (list_assign l i x) = length l.
Proof.
  intros Hi. unfold list_assign.
  rewrite length_app, length_firstn. cbn [length]. rewrite length_skipn. lia.
Qed.

Lemma nth_error_list_assign {A : Type} (l : list A) (i k : nat) (x : A) :
  (i < length l)%nat ->
  nth_error (list_assign l i x) k = if Nat.eqb k i then Some x else nth_error l k.
Proof.
  unfold list_assign. revert i k.
  induction l as [|a l IH]; intros i k Hi; simpl in Hi; [lia|].
  destruct i as [|i]; destruct k as [|k]; simpl; try reflexivity.
  apply IH. lia.
Qed.

Lemma Forall_list_assign {A : Type} (P : A -> Prop) (l : list A) (i : nat) (x : A) :
  Forall P l -> P x -> Forall P (list_assign l i x).
Proof.
  unfold list_assign. intros Hl Hx. revert i.
  induction Hl as [|a l Ha Hl IH]; intros i.
  - rewrite firstn_nil, skipn_nil. simpl. auto.
  - destruct i as [|i]; simpl.
    + constructor; assumption.
    + constructor; [assumption|]. apply IH.
Qed.

(** For an in-range column the two slices and the new character make the
    old row with the character at that column replaced. *)
Lemma splice_in_range (old : str) (c : Z) (piece : ascii) :
  0 <= c < Py.len old ->
  Py.slice_to old c ++ [piece] ++ Py.slice_from old (c + 1)
  = list_assign old (Z.to_nat c) piece.
Proof.
  intros Hc. unfold Py.slice_to, Py.slice_from, Py.slice_bound, list_assign.
  destruct (c <? 0) eqn:E1; [apply Z.ltb_lt in E1; lia|].
  destruct (c + 1 <? 0) eqn:E2; [apply Z.ltb_lt in E2; lia|].
  rewrite (Z.min_l c) by lia. rewrite (Z.min_l (c + 1)) by lia.
  replace (Z.to_nat (c + 1)) with (S (Z.to_nat c)) by lia.
  reflexivity.
Qed.

(** ** [change_position] on a board of eight rows *)

Lemma eight_rows (board : Board) :
  length board = 8%nat ->
  exists r0 r1 r2 r3 r4 r5 r6 r7, board = [r0; r1; r2; r3; r4; r5; r6; r7].
Proof.
  intros Hlen.
  do 8 (destruct board as [|? board]; [discriminate Hlen|]).
  destruct board; [|discriminate Hlen].
  do 8 eexists. reflexivity.
Qed.

Ltac row_cases r :=
  let C := fresh "C" in
  assert (C : r = 0 \/ r = 1 \/ r = 2 \/ r = 3 \/ r = 4 \/ r = 5 \/ r = 6 \/ r = 7)
    by lia;
  repeat (destruct C as [C|C]; [subst r|]); [..|subst r].

(** When the row is on the board, only that row is rebuilt. *)
Lemma change_position_row_in (board : Board) (r c : Z) (character old : str) :
  length board = 8%nat ->
  0 <= r < 8 ->
  nth_error board (Z.to_nat r) = Some old ->
  change_position board (r, c) character
  = Ok (list_assign board (Z.to_nat r)
          (Py.slice_to old c ++ character ++ Py.slice_from old (c + 1))).
Proof.
  intros Hlen Hr Hold.
  destruct (eight_rows board Hlen) as (r0 & r1 & r2 & r3 & r4 & r5 & r6 & r7 & ->).
  row_cases r; cbn in Hold; injection Hold as <-; reflexivity.
Qed.

(** When the row is off the board, no row matches and the board comes back
    as it was: nothing is raised. *)
Lemma change_position_row_out (board : Board) (r c : Z) (character : str) :
  length board = 8%nat ->
  ~ 0 <= r < 8 ->
  change_position board (r, c) character = Ok board.
Proof.
  intros Hlen Hr.
  destruct (eight_rows board Hlen) as (r0 & r1 & r2 & r3 & r4 & r5 & r6 & r7 & ->).
  unfold change_position.
  change (Py.range BOARD_SIZE) with [0; 1; 2; 3; 4; 5; 6; 7].
  cbn [change_position_rows fst snd].
  repeat match goal with
         | |- context [?k =? r] =>
             replace (k =? r) with false by (symmetry; apply Z.eqb_neq; lia)
         end.
  reflexivity.
Qed.

Lemma wf_board_row (board : Board) (r : Z) :
  wf_board board -> 0 <= r < 8 ->
  exists old, nth_error board (Z.to_nat r) = Some old /\ length old = 8%nat.
Proof.
  intros [Hlen Hrows] Hr.
  destruct (nth_error board (Z.to_nat r)) as [old|] eqn:E.
  - exists old. split; [reflexivity|].
    rewrite Forall_forall in Hrows. apply Hrows. eapply nth_error_In; eauto.
  - apply nth_error_None in E. lia.
Qed.

Lemma board_cell_in_bounds (board : Board) (p : Position) :
  0 <= fst p -> 0 <= snd p ->
  board_cell board p
  = match nth_error board (Z.to_nat (fst p)) with
    | Some old => match nth_error old (Z.to_nat (snd p)) with
                  | Some piece => Ok piece
                  | None => Err IndexError
                  end
    | None => Err IndexError
    end.
Proof.
  intros Hr Hc. unfold board_cell. rewrite index_nonneg by assumption.
  destruct (nth_error board (Z.to_nat (fst p))) as [old|]; simpl; [|reflexivity].
  apply index_nonneg. assumption.
Qed.

Lemma wf_board_cell (board : Board) (p : Position) :
  wf_board board -> in_bounds p -> exists piece, board_cell board p = Ok piece.
Proof.
  intros Hwf [Hr Hc].
  destruct (wf_board_row board (fst p) Hwf Hr) as (old & Hold & Hlen).
  rewrite board_cell_in_bounds by lia. rewrite Hold.
  destruct (nth_error old (Z.to_nat (snd p))) as [piece|] eqn:E; [eauto|].
  apply nth_error_None in E. lia.
Qed.

(** The effect of [change_position] on a well-formed board at an in-bounds
    position with a one-character piece: the result is well formed, holds the
    piece at the position and the old content everywhere else. *)
Lemma change_position_effect (board : Board) (p : Position) (piece : ascii) :
  wf_board board -> in_bounds p ->
  exists board',
    change_position board p [piece] = Ok board'
    /\ wf_board board'
    /\ board_cell board' p = Ok piece
    /\ (forall q, in_bounds q -> q <> p -> board_cell board' q = board_cell board q)
    /\ (forall r, 0 <= r < 8 -> r <> fst p -> Py.index board' r = Py.index board r).
Proof.
  intros Hwf Hp. destruct p as [r c]. destruct Hp as [Hr Hc]. simpl in Hr, Hc.
  destruct (wf_board_row board r Hwf Hr) as (old & Hold & Hlen).
  pose proof Hwf as [Hrows Hall].
  assert (Hr' : (Z.to_nat r < length board)%nat) by lia.
  assert (Hc' : (Z.to_nat c < length old)%nat) by lia.
  eexists. split; [apply change_position_row_in; eassumption|].
  rewrite splice_in_range by (unfold Py.len; lia).
  split; [|split; [|split]].
  - split; [rewrite length_list_assign; assumption|].
    apply Forall_list_assign; [assumption|].
    rewrite length_list_assign; assumption.
  - rewrite board_cell_in_bounds by (simpl; lia). simpl.
    rewrite nth_error_list_assign, Nat.eqb_refl by assumption.
    rewrite nth_error_list_assign, Nat.eqb_refl by assumption. reflexivity.
  - intros [r' c'] [Hr2 Hc2] Hne. simpl in Hr2, Hc2.
    rewrite !board_cell_in_bounds by (simpl; lia). simpl.
    rewrite nth_error_list_assign by assumption.
    destruct (Nat.eqb (Z.to_nat r') (Z.to_nat r)) eqn:E; [|reflexivity].
    apply Nat.eqb_eq in E. assert (r' = r) by lia. subst r'.
    rewrite Hold, nth_error_list_assign by assumption.
    destruct (Nat.eqb (Z.to_nat c') (Z.to_nat c)) eqn:E2; [|reflexivity].
    apply Nat.eqb_eq in E2. assert (c' = c) by lia. subst c'. congruence.
  - intros r' Hr2 Hne. simpl in Hne.
    rewrite !index_nonneg by lia. rewrite nth_error_list_assign by assumption.
    destruct (Nat.eqb (Z.to_nat r') (Z.to_nat r)) eqn:E; [|reflexivity].
    apply Nat.eqb_eq in E. lia.
Qed.

(** ** Frame and well-formedness of the board primitives *)

(** C9: on a well-formed 8 x 8 board, at an in-bounds position (r, c) and
    with a one-character piece, [change_position] returns a board that holds
    the piece at (r, c) and agrees with the input on every other cell; every
    row other than r is returned unchanged; and [clear_position] is
    [change_position] with the empty marker ['.']. *)
Theorem change_position_frame (board : Board) (r c : Z) (character : ascii) :
  wf_board board ->
  in_bounds (r, c) ->
  exists board',
    change_position board (r, c) [character] = Ok board'
    /\ board_cell board' (r, c) = Ok character
    /\ (forall q, in_bounds q -> q <> (r, c) ->
                  board_cell board' q = board_cell board q)
    /\ (forall r', 0 <= r' < 8 -> r' <> r -> Py.index board' r' = Py.index board r')
    /\ clear_position board (r, c) = change_position board (r, c) ["."%char].
Proof.
  intros Hwf Hp.
  destruct (change_position_effect board (r, c) character Hwf Hp)
    as (board' & Hrun & _ & Hat & Hframe & Hrows).
  exists board'. repeat split; assumption || reflexivity.
Qed.

Lemma change_position_frame_witness :
  exists board',
    change_position initial_state (3, 3) ["Q"%char] = Ok board'
    /\ board_cell board' (3, 3) = Ok "Q"%char
    /\ (forall q, in_bounds q -> q <> (3, 3) ->
                  board_cell board' q = board_cell initial_state q)
    /\ (forall r', 0 <= r' < 8 -> r' <> 3 ->
                   Py.index board' r' = Py.index initial_state r')
    /\ clear_position initial_state (3, 3)
       = change_position initial_state (3, 3) ["."%char].
Proof.
  apply (change_position_frame initial_state 3 3 "Q"%char).
  - split; [reflexivity | repeat constructor].
  - unfold in_bounds; simpl; lia.
Defined.

(** [update_board] on a well-formed board and an in-bounds move succeeds and
    keeps the board well formed. *)
Lemma update_board_wf (board : Board) (move : Move) :
  wf_board board -> in_bounds (fst move) -> in_bounds (snd move) ->
  exists board', update_board board move = Ok board' /\ wf_board board'.
Proof.
  intros Hwf Hfrom Hto. destruct move as [[row col] to]. simpl in Hfrom, Hto.
  unfold update_board, clear_position. cbn [fst snd].
  destruct (wf_board_cell board (row, col) Hwf Hfrom) as (piece & ->).
  destruct (change_position_effect board (row, col) EMPTY Hwf Hfrom)
    as (cleared & -> & Hwf' & _).
  cbn [bind].
  destruct (change_position_effect cleared to piece Hwf' Hto)
    as (board' & -> & Hwf'' & _).
  exists board'. split; [reflexivity | assumption].
Qed.

(** C10: on a board of exactly 8 rows of exactly 8 characters, with in-bounds
    position arguments and a one-character piece, the boards returned by
    [change_position], [update_board], [perform_en_passant] and
    [perform_castling] again have exactly 8 rows of exactly 8 characters. *)
Theorem board_operations_preserve_wf (board : Board) (position : Position)
    (piece : ascii) (move : Move) (whites_turn : bool) :
  wf_board board ->
  in_bounds position ->
  in_bounds (fst move) ->
  in_bounds (snd move) ->
  (exists changed, change_position board position [piece] = Ok changed
                   /\ wf_board changed)
  /\ (exists moved, update_board board move = Ok moved /\ wf_board moved)
  /\ (exists taken, perform_en_passant move board whites_turn = Ok taken
                    /\ wf_board taken)
  /\ (exists castled, perform_castling move board = Ok castled
                      /\ wf_board castled).
Proof.
  intros Hwf Hp Hfrom Hto. split; [|split; [|split]].
  - destruct (change_position_effect board position piece Hwf Hp)
      as (changed & Hrun & Hwf' & _).
    exists changed. split; assumption.
  - apply update_board_wf; assumption.
  - unfold perform_en_passant, clear_position.
    assert (Hother : in_bounds (fst (fst move), snd (snd move)))
      by (destruct Hfrom, Hto; split; simpl; lia).
    destruct (change_position_effect board _ EMPTY Hwf Hother)
      as (cleared & -> & Hwf' & _).
    simpl. apply update_board_wf; assumption.
  - destruct (update_board_wf board move Hwf Hfrom Hto)
      as (kings_moved & Hrun & Hwf').
    unfold perform_castling.
    destruct (snd move) as [kings_row kings_end_col] eqn:Eto.
    rewrite Hrun. cbn [bind]. destruct Hto as [Hrow _]. simpl in Hrow.
    destruct (kings_end_col =? 6);
      apply update_board_wf; try assumption; split; simpl; lia.
Qed.

Lemma board_operations_preserve_wf_witness :
  (exists changed, change_position initial_state (2, 5) ["n"%char] = Ok changed
                   /\ wf_board changed)
  /\ (exists moved, update_board initial_state ((7, 4), (7, 6)) = Ok moved
                    /\ wf_board moved)
  /\ (exists taken, perform_en_passant ((7, 4), (7, 6)) initial_state true = Ok taken
                    /\ wf_board taken)
  /\ (exists castled, perform_castling ((7, 4), (7, 6)) initial_state = Ok castled
                      /\ wf_board castled).
Proof.
  apply (board_operations_preserve_wf initial_state (2, 5) "n"%char
           ((7, 4), (7, 6)) true).
  - split; [reflexivity | repeat constructor].
  - unfold in_bounds; simpl; lia.
  - unfold in_bounds; simpl; lia.
  - unfold in_bounds; simpl; lia.
Defined.

(** ** Castling execution *)

(** C8: for every board and every canonical castle move, [perform_castling]
    is the king's move made by [update_board] followed by the rook's
    relocation made by [update_board]: the king leaves column 4 of row 7 or
    row 0; when it lands on column 6 the rook goes from (row, 7) to (row, 5),
    otherwise (column 2) the rook goes from (row, 0) to (row, 3). *)
Theorem perform_castling_moves_king_then_rook (board : Board) (move : Move) :
  In move legal_castle_move ->
  exists row,
    (row = 7 \/ row = 0)
    /\ fst move = (row, 4)
    /\ ((snd move = (row, 6)
         /\ perform_castling move board
            = (kings_moved <- update_board board move ;;
               update_board kings_moved ((row, 7), (row, 5))))
        \/ (snd move = (row, 2)
            /\ perform_castling move board
               = (kings_moved <- update_board board move ;;
                  update_board kings_moved ((row, 0), (row, 3))))).
Proof.
  intros Hin. unfold legal_castle_move in Hin. simpl in Hin.
  destruct Hin as [<-|[<-|[<-|[<-|[]]]]].
  - exists 7. split; [auto|]. split; [reflexivity|]. left. split; reflexivity.
  - exists 7. split; [auto|]. split; [reflexivity|]. right. split; reflexivity.
  - exists 0. split; [auto|]. split; [reflexivity|]. left. split; reflexivity.
  - exists 0. split; [auto|]. split; [reflexivity|]. right. split; reflexivity.
Qed.

Lemma perform_castling_moves_king_then_rook_witness :
  exists row,
    (row = 7 \/ row = 0)
    /\ fst ((7, 4), (7, 2)) = (row, 4)
    /\ ((snd ((7, 4), (7, 2)) = (row, 6)
         /\ perform_castling ((7, 4), (7, 2)) queenside_position
            = (kings_moved <- update_board queenside_position ((7, 4), (7, 2)) ;;
               update_board kings_moved ((row, 7), (row, 5))))
        \/ (snd ((7, 4), (7, 2)) = (row, 2)
            /\ perform_castling ((7, 4), (7, 2)) queenside_position
               = (kings_moved <- update_board queenside_position ((7, 4), (7, 2)) ;;
                  update_board kings_moved ((row, 0), (row, 3))))).
Proof.
  apply (perform_castling_moves_king_then_rook queenside_position ((7, 4), (7, 2))).
  simpl. right. left. reflexivity.
Defined.

(** ** Bounds *)

Lemma out_of_bounds_false (p : Position) : in_bounds p -> out_of_bounds p = false.
Proof.
  intros [Hr Hc]. unfold out_of_bounds, BOARD_SIZE.
  apply negb_false_iff. repeat (apply andb_true_iff; split);
    (apply Z.leb_le || apply Z.ltb_lt); lia.
Qed.

Lemma out_of_bounds_true (p : Position) : ~ in_bounds p -> out_of_bounds p = true.
Proof.
  intros Hout. destruct (out_of_bounds p) eqn:E; [reflexivity|].
  exfalso. apply Hout. unfold out_of_bounds, BOARD_SIZE in E.
  apply negb_false_iff in E.
  repeat (apply andb_true_iff in E; destruct E as [E ?]).
  split; split; (apply Z.leb_le || apply Z.ltb_lt); assumption.
Qed.

Lemma piece_at_position_in_bounds (board : Board) (p : Position) :
  in_bounds p -> piece_at_position p board = board_cell board p.
Proof.
  intros Hp. unfold piece_at_position. rewrite out_of_bounds_false by assumption.
  reflexivity.
Qed.

(** ** Game-state updates *)

(** C6: for every move, side to move and triple of booleans, every component
    of [update_castling_info] is True whenever the corresponding component of
    the input is True: the flags "left rook moved", "king moved" and "right
    rook moved" are never reset to False. *)
Theorem castling_flags_monotonic (move : Move) (whites_turn : bool)
    (left king right : bool) :
  exists left' king' right',
    update_castling_info move whites_turn [left; king; right]
    = Ok [left'; king'; right']
    /\ (left = true -> left' = true)
    /\ (king = true -> king' = true)
    /\ (right = true -> right' = true).
Proof.
  unfold update_castling_info. cbn [length seq].
  set (row := if whites_turn then 7 else 0).
  destruct left, king, right;
    repeat first
      [ rewrite index_of_nat
      | progress cbn [update_castling_info_loop nth_error bind list_assign
                      firstn skipn app]
      | match goal with
        | |- context [position_eqb ?x ?y] => destruct (position_eqb x y)
        end ];
    do 3 eexists; (split; [reflexivity|]); auto.
Qed.

(** C7: on a well-formed board and for a committed move, whose destination
    is on the board, [update_en_passant_position] returns None unless the
    move is an eligible double pawn step (the piece now on the destination is
    the mover's own pawn on row 4 for white / row 3 for black, and the move
    advanced exactly two rows in the mover's direction), in which case it
    returns the skipped square; and from the standard initial position, after
    white's pawn move (6,4)->(4,4) it returns (5,4). *)
Theorem en_passant_target_only_after_double_step (move : Move) (board : Board)
    (whites_turn : bool) :
  wf_board board ->
  in_bounds (snd move) ->
  (~ eligible_double_step move board whites_turn ->
   update_en_passant_position move board whites_turn = Ok None)
  /\ (eligible_double_step move board whites_turn ->
      update_en_passant_position move board whites_turn
      = Ok (Some (fst (fst move) + (if whites_turn then -1 else 1),
                  snd (fst move))))
  /\ (moved <- update_board initial_state ((6, 4), (4, 4)) ;;
      update_en_passant_position ((6, 4), (4, 4)) moved true)
     = Ok (Some (5, 4)).
Proof.
  intros Hwf Hto. destruct move as [from to]. cbn [fst snd] in *.
  unfold eligible_double_step, update_en_passant_position. cbn [fst snd].
  rewrite piece_at_position_in_bounds by assumption.
  destruct (wf_board_cell board to Hwf Hto) as (piece & ->).
  split; [|split]; [| |reflexivity].
  - intros Hnot. destruct whites_turn; cbn [bind and_then];
      match goal with
      | |- context [Ascii.eqb piece ?pawn] =>
          destruct (Ascii.eqb_spec piece pawn) as [->|Hpiece]; [|reflexivity]
      end;
      match goal with
      | |- context [fst to =? ?row] =>
          destruct (Z.eqb_spec (fst to) row) as [Hrow|Hrow]; [|reflexivity]
      end;
      match goal with
      | |- context [?d =? ?e] =>
          destruct (Z.eqb_spec d e) as [Hstep|Hstep]; [|reflexivity]
      end;
      exfalso; apply Hnot; repeat split; assumption.
  - intros (Hpiece & Hrow & Hstep). injection Hpiece as ->.
    destruct whites_turn; cbn [bind and_then];
      rewrite Ascii.eqb_refl; rewrite Hrow in *; cbn [bind];
      match goal with
      | |- context [?d =? ?e] =>
          destruct (Z.eqb_spec d e) as [_|Hne]; [reflexivity | lia]
      end.
Qed.

Lemma en_passant_target_only_after_double_step_witness :
  (~ eligible_double_step ((7, 6), (5, 5)) initial_state true ->
   update_en_passant_position ((7, 6), (5, 5)) initial_state true = Ok None)
  /\ (eligible_double_step ((7, 6), (5, 5)) initial_state true ->
      update_en_passant_position ((7, 6), (5, 5)) initial_state true
      = Ok (Some (fst (fst ((7, 6), (5, 5))) + (if true then -1 else 1),
                  snd (fst ((7, 6), (5, 5))))))
  /\ (moved <- update_board initial_state ((6, 4), (4, 4)) ;;
      update_en_passant_position ((6, 4), (4, 4)) moved true)
     = Ok (Some (5, 4)).
Proof.
  apply (en_passant_target_only_after_double_step ((7, 6), (5, 5))
           initial_state true).
  - split; [reflexivity | repeat constructor].
  - unfold in_bounds; simpl; lia.
Defined.

(** ** Move validation *)

(** When both endpoints are off the board the first conjunct of
    [is_move_valid] fails and the move is rejected without any read. *)
Lemma is_move_valid_both_out `{Support} (move : Move) (board : Board)
    (whites_turn : bool) :
  out_of_bounds (fst move) = true ->
  out_of_bounds (snd move) = true ->
  is_move_valid move board whites_turn = Ok false.
Proof.
  intros Hfrom Hto. unfold is_move_valid. rewrite Hfrom, Hto. reflexivity.
Qed.

Lemma position_eqb_eq (p q : Position) : position_eqb p q = true -> p = q.
Proof.
  destruct p as [pr pc], q as [qr qc]. unfold position_eqb. cbn [fst snd].
  intros E. apply andb_true_iff in E. destruct E as [Er Ec].
  apply Z.eqb_eq in Er, Ec. congruence.
Qed.

(** When only the origin is off the board the guard passes and the read of
    the origin raises. *)
Lemma is_move_valid_origin_out `{Support} (move : Move) (board : Board)
    (whites_turn : bool) :
  out_of_bounds (fst move) = true ->
  out_of_bounds (snd move) = false ->
  is_move_valid move board whites_turn = Err OutOfBounds.
Proof.
  intros Hfrom Hto. unfold is_move_valid. rewrite Hfrom, Hto.
  destruct (position_eqb (fst move) (snd move)) eqn:E;
    [apply position_eqb_eq in E; congruence|].
  unfold piece_at_position. rewrite Hfrom. reflexivity.
Qed.

(** When only the destination is off the board and the origin holds a piece
    of the side to move, the guard passes and the read of the destination
    raises. *)
Lemma is_move_valid_destination_out `{Support} (move : Move) (board : Board)
    (whites_turn : bool) (piece : ascii) :
  out_of_bounds (fst move) = false ->
  out_of_bounds (snd move) = true ->
  board_cell board (fst move) = Ok piece ->
  is_current_players_piece piece whites_turn = true ->
  is_move_valid move board whites_turn = Err OutOfBounds.
Proof.
  intros Hfrom Hto Hcell Hown. unfold is_move_valid. rewrite Hfrom, Hto.
  destruct (position_eqb (fst move) (snd move)) eqn:E;
    [apply position_eqb_eq in E; congruence|].
  unfold piece_at_position. rewrite Hfrom, Hto, Hcell. cbn [bind and_then andb negb].
  rewrite Hown. reflexivity.
Qed.

(** C2: whenever [is_move_valid] returns True, the board after the move is
    produced by [update_board] and [is_in_check] returns False on it for the
    mover's side: no accepted move leaves the mover's own king in check.
    This holds whatever the support module's move generator and check
    detector compute. *)
Theorem valid_move_leaves_no_check `{Support} (move : Move) (board : Board)
    (whites_turn : bool) :
  is_move_valid move board whites_turn = Ok true ->
  exists moved,
    update_board board move = Ok moved
    /\ is_in_check moved whites_turn = Ok false.
Proof.
  unfold is_move_valid. intros Hvalid.
  apply and_then_true in Hvalid. destruct Hvalid as [_ Hcheck].
  apply not_true in Hcheck. apply bind_Ok in Hcheck.
  destruct Hcheck as (moved & Hmoved & Hsafe). eauto.
Qed.

Lemma valid_move_leaves_no_check_witness :
  exists moved,
    update_board initial_state ((6, 4), (4, 4)) = Ok moved
    /\ @is_in_check spec_support moved true = Ok false.
Proof.
  apply (@valid_move_leaves_no_check spec_support ((6, 4), (4, 4))
           initial_state true).
  vm_compute. reflexivity.
Defined.

(** C1 fails on the code: the guard of [is_move_valid] is
    [not (out_of_bounds(move[0]) and out_of_bounds(move[1]))], which lets a
    move through when only one endpoint is off the board.  For white's
    (6,0)->(8,0) from the initial position the validator goes on to read the
    off-board destination and raises instead of returning False, whatever
    the move generator and the check detector are. *)
Theorem is_move_valid_one_endpoint_out `{Support} :
  out_of_bounds (8, 0) = true
  /\ is_move_valid ((6, 0), (8, 0)) initial_state true = Err OutOfBounds.
Proof. split; reflexivity. Qed.

(** ** En passant *)

(** C4 fails on the code: [is_valid_en_passant] never compares the two
    files.  After 1. a4 h6 2. a5 f5 it accepts white's a5 pawn taking on f6,
    five files away, while the ordinary validator rejects that move. *)
Theorem en_passant_accepts_distant_pawn :
  is_valid_en_passant ((3, 0), (2, 5)) far_pawn_position true (Some (2, 5)) = Ok true
  /\ snd (snd ((3, 0), (2, 5))) - snd (fst ((3, 0), (2, 5))) = 5
  /\ @is_move_valid spec_support ((3, 0), (2, 5)) far_pawn_position true = Ok false.
Proof. repeat split; vm_compute; reflexivity. Qed.

(** What the code does guarantee: an accepted en-passant move changes file,
    because the origin holds the mover's pawn while the square on the
    origin's rank and the destination's file holds an enemy pawn. *)
Lemma en_passant_changes_file (move : Move) (board : Board) (whites_turn : bool)
    (en_passant_position : option Position) :
  is_valid_en_passant move board whites_turn en_passant_position = Ok true ->
  snd (snd move) <> snd (fst move).
Proof.
  destruct move as [[fr fc] [tr tc]]. unfold is_valid_en_passant.
  destruct whites_turn; cbn [fst snd]; intros Hvalid;
    apply and_then_true in Hvalid; destruct Hvalid as [Hvalid Hother];
    apply and_then_true in Hvalid; destruct Hvalid as [_ Hself];
    apply bind_Ok in Hother; destruct Hother as (other & Hother & Eother);
    apply bind_Ok in Hself; destruct Hself as (self & Hself & Eself);
    intros ->; rewrite Hself in Hother; injection Hother as ->;
    injection Eother as Eother; injection Eself as Eself;
    apply Ascii.eqb_eq in Eother, Eself; rewrite Eother in Eself;
    discriminate Eself.
Qed.

(** ** The check detector of the spec on known positions *)

Example initial_state_no_check :
  SpecSupport.is_in_check initial_state true = Ok false
  /\ SpecSupport.is_in_check initial_state false = Ok false.
Proof. split; vm_compute; reflexivity. Qed.

Example fools_mate_check :
  SpecSupport.is_in_check fools_mate_position true = Ok true
  /\ SpecSupport.is_in_check fools_mate_position false = Ok false.
Proof. split; vm_compute; reflexivity. Qed.

(** ** Castling validity *)

(** Under the conditions that do not involve check, a castle attempt is
    decided by the scan alone, and the scan runs over [range(4)] on the
    king's side and [range(5)] on the queen's side: from the king's square
    up to and including the rook's corner. *)
Lemma castle_attempt_scans_to_rook `{Support} (move : Move) (board : Board)
    (whites_turn : bool) (castling_info : list bool) :
  castle_preconditions move board whites_turn castling_info ->
  is_valid_castle_attempt move board whites_turn castling_info
  = not_in_check_all_the_way board whites_turn (fst move)
      (if snd (snd move) =? 6 then 1 else -1)
      (if snd (snd move) =? 6 then [0; 1; 2; 3] else [0; 1; 2; 3; 4]).
Proof.
  intros (Hking & Hin & Hmoved & Hright & Hleft).
  simpl in Hin. destruct Hin as [<-|[<-|[<-|[<-|[]]]]]; cbn [fst snd] in *.
  all: try (specialize (Hright eq_refl);
            destruct Hright as (Hrook_moved & Hrook & Hf & Hg); clear Hleft).
  all: try (specialize (Hleft eq_refl);
            destruct Hleft as (Hrook_moved & Hrook & Hd & Hc & Hb); clear Hright).
  all: cbv beta iota zeta delta [is_valid_castle_attempt is_EMPTY fst snd].
  all: change (4 + 1) with 5; change (4 + 2) with 6;
       change (4 - 1) with 3; change (4 - 2) with 2; change (4 - 3) with 1.
  all: change (4 <? 6) with true; change (4 <? 2) with false.
  all: repeat first
         [ rewrite Hking | rewrite Hmoved | rewrite Hrook_moved | rewrite Hrook
         | rewrite Hf | rewrite Hg | rewrite Hd | rewrite Hc | rewrite Hb
         | rewrite Ascii.eqb_refl
         | progress cbn [bind and_then not_ negb]
         | match goal with
           | |- context [move_in ?m legal_castle_move] =>
               change (move_in m legal_castle_move) with true
           end ].
  all: reflexivity.
Qed.

(** The scan succeeds exactly when the king, put on each scanned square in
    turn, is found not to be in check. *)
Lemma scan_true_iff `{Support} (board : Board) (whites_turn : bool)
    (from_position : Position) (direction : Z) (steps : list Z) :
  not_in_check_all_the_way board whites_turn from_position direction steps = Ok true
  <-> Forall (fun i =>
                (moved <- update_board board
                            (from_position,
                             (fst from_position, snd from_position + i * direction)) ;;
                 is_in_check moved whites_turn) = Ok false) steps.
Proof.
  induction steps as [|i steps IH]; cbn [not_in_check_all_the_way].
  - split; [constructor | reflexivity].
  - split.
    + intros Hrun.
      destruct (update_board board _) as [moved|e] eqn:Emoved;
        cbn [bind] in Hrun; [|discriminate].
      destruct (is_in_check moved whites_turn) as [[|]|e] eqn:Echeck;
        cbn [bind] in Hrun; try discriminate.
      constructor; [|apply IH; exact Hrun].
      cbv beta. rewrite Emoved. exact Echeck.
    + intros Hall. inversion Hall as [|? ? Hhead Htail]; subst.
      apply bind_Ok in Hhead. destruct Hhead as (moved & Emoved & Echeck).
      rewrite Emoved. cbn [bind]. rewrite Echeck. cbn [bind].
      apply IH. exact Htail.
Qed.

(** Hence, under the conditions that do not involve check, a castle attempt
    is accepted exactly when the king is safe on every square from its own up
    to and including the rook's corner. *)
Lemma castle_attempt_true_iff_safe_to_rook `{Support} (move : Move) (board : Board)
    (whites_turn : bool) (castling_info : list bool) :
  castle_preconditions move board whites_turn castling_info ->
  is_valid_castle_attempt move board whites_turn castling_info = Ok true
  <-> Forall (fun column =>
                (moved <- update_board board (fst move, (fst (fst move), column)) ;;
                 is_in_check moved whites_turn) = Ok false)
        (if snd (snd move) =? 6 then [4; 5; 6; 7] else [4; 3; 2; 1; 0]).
Proof.
  intros Hpre. rewrite (castle_attempt_scans_to_rook move board) by assumption.
  rewrite scan_true_iff.
  destruct Hpre as (_ & Hin & _). simpl in Hin.
  destruct Hin as [<-|[<-|[<-|[<-|[]]]]]; cbn [fst snd Z.eqb Pos.eqb];
    split; intros Hall;
    repeat match goal with
           | Hcons : Forall _ (_ :: _) |- _ => inversion Hcons; subst; clear Hcons
           end;
    repeat constructor; assumption.
Qed.

(** C3 fails on the code: the scan of [is_valid_castle_attempt] runs over
    [range(4)] (columns 4, 5, 6, 7) on the king's side and [range(5)]
    (columns 4, 3, 2, 1, 0) on the queen's side, so an attack on a square
    beyond the king's own path rejects the castle.  In both positions the
    conditions that do not involve check hold and the king is safe on every
    square of its path (columns 4, 5, 6, resp. 4, 3, 2), yet the attempt is
    rejected: black's rook bears on h1, resp. on b1. *)
Theorem castle_attempt_rejects_attack_off_kings_path :
  (castle_preconditions ((7, 4), (7, 6)) kingside_position true [false; false; false]
   /\ @not_in_check_all_the_way spec_support kingside_position true (7, 4) 1 [0; 1; 2]
      = Ok true
   /\ @is_valid_castle_attempt spec_support ((7, 4), (7, 6)) kingside_position true
        [false; false; false] = Ok false)
  /\ (castle_preconditions ((7, 4), (7, 2)) queenside_position true [false; false; false]
      /\ @not_in_check_all_the_way spec_support queenside_position true (7, 4) (-1)
           [0; 1; 2] = Ok true
      /\ @is_valid_castle_attempt spec_support ((7, 4), (7, 2)) queenside_position true
           [false; false; false] = Ok false).
Proof.
  split; (split; [|split; vm_compute; reflexivity]).
  - unfold castle_preconditions. cbn [fst snd].
    split; [reflexivity|]. split; [simpl; auto|]. split; [reflexivity|].
    split; [intros _; repeat split | intros Hcol; discriminate Hcol].
  - unfold castle_preconditions. cbn [fst snd].
    split; [reflexivity|]. split; [simpl; auto|]. split; [reflexivity|].
    split; [intros Hcol; discriminate Hcol | intros _; repeat split].
Qed.

(** ** Off-board coordinates *)

Lemma wf_board_index (board : Board) (r : Z) :
  wf_board board -> -8 <= r < 8 ->
  exists row, Py.index board r = Ok row /\ length row = 8%nat.
Proof.
  intros Hwf Hr. pose proof Hwf as [Hlen _].
  destruct (Z_lt_le_dec r 0) as [Hneg|Hpos].
  - rewrite index_negative by (unfold Py.len; lia).
    unfold Py.len. rewrite Hlen.
    destruct (wf_board_row board (r + 8) Hwf) as (row & Hrow & Hrowlen); [lia|].
    exists row. rewrite index_nonneg by lia.
    change (Z.of_nat 8) with 8. rewrite Hrow. auto.
  - destruct (wf_board_row board r Hwf) as (row & Hrow & Hrowlen); [lia|].
    exists row. rewrite index_nonneg by lia. rewrite Hrow. auto.
Qed.

(** C5 fails on the code: the board primitives make no bounds check.  On the
    initial position [update_board] raises Python's own IndexError for an
    origin on row 8; for an origin on row -1 it wraps around silently and
    copies the rook of row 7 to the destination; [change_position] with row 8
    silently returns the board as it was, and with column 8 silently returns
    a board whose fourth row has nine characters. *)
Lemma unchecked_coordinates_counterexample :
  update_board initial_state ((8, 0), (5, 0)) = Err IndexError
  /\ update_board initial_state ((-1, 0), (5, 0))
     = Ok (board_of [ "rnbqkbnr"; "pppppppp"; "........"; "........";
                      "........"; "R......."; "PPPPPPPP"; "RNBQKBNR" ]%string)
  /\ change_position initial_state (8, 0) ["Q"%char] = Ok initial_state
  /\ change_position initial_state (3, 8) ["Q"%char]
     = Ok (board_of [ "rnbqkbnr"; "pppppppp"; "........"; "........Q";
                      "........"; "........"; "PPPPPPPP"; "RNBQKBNR" ]%string).
Proof. repeat split. Qed.

(** C5, amended: on a well-formed board and for a position with a coordinate
    outside [0, 8), (1) [change_position] with a row outside [0, 8) returns
    the board unchanged and raises nothing; (2) [update_board] raises
    Python's IndexError when the origin has a coordinate >= 8 or < -8;
    (3) for an origin row in [-8, 0) [update_board] wraps around: it reads
    the piece on row + 8, clears nothing and writes the piece on the
    destination; (4) [is_move_valid] returns False when both endpoints are
    out of bounds. *)
Theorem unchecked_coordinates `{Support} (board : Board) :
  wf_board board ->
  (forall r c character,
      ~ 0 <= r < 8 -> change_position board (r, c) character = Ok board)
  /\ (forall r c destination,
         r < -8 \/ 8 <= r \/ c < -8 \/ 8 <= c ->
         update_board board ((r, c), destination) = Err IndexError)
  /\ (forall r c destination,
         -8 <= r < 0 ->
         update_board board ((r, c), destination)
         = (piece <- board_cell board (r + 8, c) ;;
            change_position board destination [piece]))
  /\ (forall move whites_turn,
         out_of_bounds (fst move) = true ->
         out_of_bounds (snd move) = true ->
         is_move_valid move board whites_turn = Ok false).
Proof.
  intros Hwf. pose proof Hwf as [Hlen Hrows].
  split; [|split; [|split]].
  - intros r c character Hr. apply change_position_row_out; assumption.
  - intros r c destination Hout. unfold update_board, board_cell. cbn [fst snd].
    destruct (Z_lt_le_dec r (-8)) as [Hlow|Hlow];
      [rewrite index_raises by (unfold Py.len; lia); reflexivity|].
    destruct (Z_lt_le_dec r 8) as [Hhigh|Hhigh];
      [|rewrite index_raises by (unfold Py.len; lia); reflexivity].
    destruct (wf_board_index board r Hwf) as (row & -> & Hrowlen); [lia|].
    cbn [bind]. rewrite index_raises by (unfold Py.len; lia). reflexivity.
  - intros r c destination Hr. unfold update_board, clear_position, board_cell.
    cbn [fst snd].
    rewrite (index_negative board r) by (unfold Py.len; lia).
    unfold Py.len at 1. rewrite Hlen. change (Z.of_nat 8) with 8.
    rewrite change_position_row_out by (assumption || lia).
    destruct (Py.index board (r + 8)) as [row|e]; cbn [bind]; [|reflexivity].
    destruct (Py.index row c) as [piece|e]; reflexivity.
  - intros move whites_turn. apply is_move_valid_both_out.
Qed.

Lemma unchecked_coordinates_witness :
  (forall r c character,
      ~ 0 <= r < 8 -> change_position initial_state (r, c) character = Ok initial_state)
  /\ (forall r c destination,
         r < -8 \/ 8 <= r \/ c < -8 \/ 8 <= c ->
         update_board initial_state ((r, c), destination) = Err IndexError)
  /\ (forall r c destination,
         -8 <= r < 0 ->
         update_board initial_state ((r, c), destination)
         = (piece <- board_cell initial_state (r + 8, c) ;;
            change_position initial_state destination [piece]))
  /\ (forall move whites_turn,
         out_of_bounds (fst move) = true ->
         out_of_bounds (snd move) = true ->
         @is_move_valid spec_support move initial_state whites_turn = Ok false).
Proof.
  apply (@unchecked_coordinates spec_support initial_state).
  split; [reflexivity | repeat constructor].
Defined.

(** * Further properties *)

(** ** Boards are determined by their cells *)

Lemma board_ext (board board' : Board) :
  wf_board board -> wf_board board' ->
  (forall q, in_bounds q -> board_cell board q = board_cell board' q) ->
  board = board'.
Proof.
  intros [Hlen Hrows] [Hlen' Hrows'] Hcells.
  apply nth_error_ext. intros n.
  destruct (Nat.lt_ge_cases n 8) as [Hn|Hn].
  - destruct (nth_error board n) as [row|] eqn:Erow;
      [|apply nth_error_None in Erow; lia].
    destruct (nth_error board' n) as [row'|] eqn:Erow';
      [|apply nth_error_None in Erow'; lia].
    f_equal. apply nth_error_ext. intros m.
    assert (Hrow : length row = 8%nat)
      by (rewrite Forall_forall in Hrows; apply Hrows; eapply nth_error_In; eauto).
    assert (Hrow' : length row' = 8%nat)
      by (rewrite Forall_forall in Hrows'; apply Hrows'; eapply nth_error_In; eauto).
    destruct (Nat.lt_ge_cases m 8) as [Hm|Hm].
    + specialize (Hcells (Z.of_nat n, Z.of_nat m)).
      rewrite !board_cell_in_bounds in Hcells by (simpl; lia).
      cbn [fst snd] in Hcells. rewrite !Nat2Z.id, Erow, Erow' in Hcells.
      destruct (nth_error row m) as [x|] eqn:Ex;
        [|apply nth_error_None in Ex; lia].
      destruct (nth_error row' m) as [x'|] eqn:Ex';
        [|apply nth_error_None in Ex'; lia].
      assert (Hin : in_bounds (Z.of_nat n, Z.of_nat m))
        by (split; simpl; lia).
      specialize (Hcells Hin). congruence.
    + assert (E1 : nth_error row m = None) by (apply nth_error_None; lia).
      assert (E2 : nth_error row' m = None) by (apply nth_error_None; lia).
      congruence.
  - assert (E1 : nth_error board n = None) by (apply nth_error_None; lia).
    assert (E2 : nth_error board' n = None) by (apply nth_error_None; lia).
    congruence.
Qed.

(** ** What a move does to the cells *)

(** [update_board] on a well-formed board, between two different squares of
    the board: the piece of the origin stands on the destination, the origin
    is empty and no other cell changes. *)
Lemma update_board_cells (board : Board) (from_position to_position : Position) :
  wf_board board -> in_bounds from_position -> in_bounds to_position ->
  from_position <> to_position ->
  exists piece moved,
    board_cell board from_position = Ok piece
    /\ update_board board (from_position, to_position) = Ok moved
    /\ wf_board moved
    /\ board_cell moved to_position = Ok piece
    /\ board_cell moved from_position = Ok EMPTY
    /\ (forall q, in_bounds q -> q <> from_position -> q <> to_position ->
                  board_cell moved q = board_cell board q).
Proof.
  intros Hwf Hfrom Hto Hne. destruct from_position as [row col].
  destruct (wf_board_cell board (row, col) Hwf Hfrom) as (piece & Hpiece).
  destruct (change_position_effect board (row, col) EMPTY Hwf Hfrom)
    as (cleared & Hclear & Hwf1 & Hat1 & Hframe1 & _).
  destruct (change_position_effect cleared to_position piece Hwf1 Hto)
    as (moved & Hmove & Hwf2 & Hat2 & Hframe2 & _).
  exists piece, moved. split; [assumption|]. split.
  - unfold update_board, clear_position. cbn [fst snd].
    rewrite Hpiece. cbn [bind]. rewrite Hclear. cbn [bind]. exact Hmove.
  - split; [assumption|]. split; [assumption|]. split.
    + rewrite Hframe2 by (assumption || congruence). assumption.
    + intros q Hq Hq1 Hq2. rewrite Hframe2 by assumption. apply Hframe1; assumption.
Qed.

(** X1: on a well-formed board and for a move between two different squares
    of the board, [update_board] puts the piece of the origin on the
    destination (overwriting what stood there), leaves the origin empty and
    changes no other cell. *)
Theorem update_board_moves_one_piece (board : Board)
    (from_position to_position : Position) :
  wf_board board -> in_bounds from_position -> in_bounds to_position ->
  from_position <> to_position ->
  exists piece moved,
    board_cell board from_position = Ok piece
    /\ update_board board (from_position, to_position) = Ok moved
    /\ board_cell moved to_position = Ok piece
    /\ board_cell moved from_position = Ok EMPTY
    /\ (forall q, in_bounds q -> q <> from_position -> q <> to_position ->
                  board_cell moved q = board_cell board q).
Proof.
  intros Hwf Hfrom Hto Hne.
  destruct (update_board_cells board from_position to_position Hwf Hfrom Hto Hne)
    as (piece & moved & H1 & H2 & _ & H3 & H4 & H5).
  exists piece, moved. repeat split; assumption.
Qed.

Lemma update_board_moves_one_piece_witness :
  exists piece moved,
    board_cell initial_state (6, 4) = Ok piece
    /\ update_board initial_state ((6, 4), (4, 4)) = Ok moved
    /\ board_cell moved (4, 4) = Ok piece
    /\ board_cell moved (6, 4) = Ok EMPTY
    /\ (forall q, in_bounds q -> q <> (6, 4) -> q <> (4, 4) ->
                  board_cell moved q = board_cell initial_state q).
Proof.
  apply (update_board_moves_one_piece initial_state (6, 4) (4, 4)).
  - split; [reflexivity | repeat constructor].
  - unfold in_bounds; simpl; lia.
  - unfold in_bounds; simpl; lia.
  - discriminate.
Defined.

(** X2: on a well-formed board, a move from a square of the board to the
    same square gives the board back: the square is emptied and the piece
    written again.  (The castle scan relies on this for [i = 0].) *)
Theorem update_board_same_square (board : Board) (position : Position) :
  wf_board board -> in_bounds position ->
  update_board board (position, position) = Ok board.
Proof.
  intros Hwf Hp. destruct position as [row col].
  destruct (wf_board_cell board (row, col) Hwf Hp) as (piece & Hpiece).
  destruct (change_position_effect board (row, col) EMPTY Hwf Hp)
    as (cleared & Hclear & Hwf1 & Hat1 & Hframe1 & _).
  destruct (change_position_effect cleared (row, col) piece Hwf1 Hp)
    as (moved & Hmove & Hwf2 & Hat2 & Hframe2 & _).
  unfold update_board, clear_position. cbn [fst snd].
  rewrite Hpiece. cbn [bind]. rewrite Hclear. cbn [bind]. rewrite Hmove.
  f_equal. apply board_ext; try assumption.
  intros q Hq. destruct (Z.eq_dec (fst q) row) as [Er|Er];
    [destruct (Z.eq_dec (snd q) col) as [Ec|Ec]|].
  - destruct q as [qr qc]. cbn [fst snd] in *. subst. congruence.
  - rewrite Hframe2 by (assumption || (intros ->; cbn in Ec; congruence)).
    apply Hframe1; [assumption|]. intros ->. cbn in Ec. congruence.
  - rewrite Hframe2 by (assumption || (intros ->; cbn in Er; congruence)).
    apply Hframe1; [assumption|]. intros ->. cbn in Er. congruence.
Qed.

Lemma update_board_same_square_witness :
  update_board initial_state ((7, 4), (7, 4)) = Ok initial_state.
Proof.
  apply (update_board_same_square initial_state (7, 4)).
  - split; [reflexivity | repeat constructor].
  - unfold in_bounds; simpl; lia.
Defined.

(** X3: on a well-formed board, writing a square twice keeps the last
    piece only, and writes to two different squares can be made in either
    order. *)
Theorem change_position_composes (board : Board) (p q : Position) (x y : ascii) :
  wf_board board -> in_bounds p -> in_bounds q ->
  (once <- change_position board p [x] ;; change_position once p [y])
  = change_position board p [y]
  /\ (p <> q ->
      (once <- change_position board p [x] ;; change_position once q [y])
      = (once <- change_position board q [y] ;; change_position once p [x])).
Proof.
  intros Hwf Hp Hq.
  destruct (change_position_effect board p x Hwf Hp)
    as (bx & Hbx & Hwfx & Hatx & Hframex & _).
  destruct (change_position_effect board p y Hwf Hp)
    as (b_y & Hby & Hwfy & Haty & Hframey & _).
  destruct (change_position_effect bx p y Hwfx Hp)
    as (bxy & Hbxy & Hwfxy & Hatxy & Hframexy & _).
  split.
  - rewrite Hbx. cbn [bind]. rewrite Hbxy, Hby. f_equal.
    apply board_ext; try assumption. intros c Hc.
    destruct (Z.eq_dec (fst c) (fst p)) as [Er|Er];
      [destruct (Z.eq_dec (snd c) (snd p)) as [Ec|Ec]|].
    + assert (c = p) by (destruct c, p; cbn in *; congruence). subst c. congruence.
    + rewrite Hframexy, Hframex, Hframey; congruence.
    + rewrite Hframexy, Hframex, Hframey; congruence.
  - intros Hne.
    destruct (change_position_effect board q y Hwf Hq)
      as (bq & Hbq & Hwfq & Hatq & Hframeq & _).
    destruct (change_position_effect bx q y Hwfx Hq)
      as (bxq & Hbxq & Hwfxq & Hatxq & Hframexq & _).
    destruct (change_position_effect bq p x Hwfq Hp)
      as (bqx & Hbqx & Hwfqx & Hatqx & Hframeqx & _).
    rewrite Hbx, Hbq. cbn [bind]. rewrite Hbxq, Hbqx. f_equal.
    apply board_ext; try assumption. intros c Hc.
    assert (Hcases : c = p \/ c = q \/ (c <> p /\ c <> q)).
    { destruct c as [cr cc], p as [pr pc], q as [qr qc].
      destruct (Z.eq_dec cr pr), (Z.eq_dec cc pc), (Z.eq_dec cr qr),
        (Z.eq_dec cc qc); subst;
        solve [ left; reflexivity | right; left; reflexivity
              | right; right; split; congruence ]. }
    destruct Hcases as [->|[->|[Hcp Hcq]]].
    + rewrite Hframexq by (assumption || congruence). congruence.
    + rewrite Hframeqx by (assumption || congruence). congruence.
    + rewrite Hframexq, Hframex, Hframeqx, Hframeq by assumption. reflexivity.
Qed.

Lemma change_position_composes_witness :
  (once <- change_position initial_state (3, 3) ["Q"%char] ;;
   change_position once (3, 3) ["n"%char])
  = change_position initial_state (3, 3) ["n"%char]
  /\ ((3, 3) <> (4, 6) ->
      (once <- change_position initial_state (3, 3) ["Q"%char] ;;
       change_position once (4, 6) ["n"%char])
      = (once <- change_position initial_state (4, 6) ["n"%char] ;;
         change_position once (3, 3) ["Q"%char])).
Proof.
  apply (change_position_composes initial_state (3, 3) (4, 6) "Q"%char "n"%char).
  - split; [reflexivity | repeat constructor].
  - unfold in_bounds; simpl; lia.
  - unfold in_bounds; simpl; lia.
Defined.

(** Two moves in a row between four different squares of the board. *)
Lemma two_moves_cells (board : Board) (a b c d : Position) :
  wf_board board ->
  in_bounds a -> in_bounds b -> in_bounds c -> in_bounds d ->
  a <> b -> c <> d -> c <> a -> c <> b -> d <> a -> d <> b ->
  exists first second moved,
    board_cell board a = Ok first
    /\ board_cell board c = Ok second
    /\ (once <- update_board board (a, b) ;; update_board once (c, d)) = Ok moved
    /\ wf_board moved
    /\ board_cell moved b = Ok first
    /\ board_cell moved d = Ok second
    /\ board_cell moved a = Ok EMPTY
    /\ board_cell moved c = Ok EMPTY
    /\ (forall q, in_bounds q -> q <> a -> q <> b -> q <> c -> q <> d ->
                  board_cell moved q = board_cell board q).
Proof.
  intros Hwf Ha Hb Hc Hd Hab Hcd Hca Hcb Hda Hdb.
  destruct (update_board_cells board a b Hwf Ha Hb Hab)
    as (first & once & Hfirst & Honce & Hwf1 & Hb1 & Ha1 & Hframe1).
  destruct (update_board_cells once c d Hwf1 Hc Hd Hcd)
    as (second & moved & Hsecond & Hmoved & Hwf2 & Hd2 & Hc2 & Hframe2).
  exists first, second, moved.
  split; [assumption|]. split; [rewrite <- Hframe1; assumption|].
  split; [rewrite Honce; exact Hmoved|]. split; [assumption|].
  split; [rewrite Hframe2 by (assumption || congruence); assumption|].
  split; [assumption|].
  split; [rewrite Hframe2 by (assumption || congruence); assumption|].
  split; [assumption|].
  intros q Hq Hqa Hqb Hqc Hqd. rewrite Hframe2 by assumption.
  apply Hframe1; assumption.
Qed.

(** X4: on a well-formed board and for each of the four canonical castle
    moves, [perform_castling] puts what stood on the king's square on the
    king's destination and what stood on the rook's corner on the rook's
    destination, leaves the king's square and the corner empty, and changes
    no other cell. *)
Theorem perform_castling_moves_two_pieces (board : Board) (move : Move) :
  wf_board board ->
  In move legal_castle_move ->
  exists king rook castled,
    board_cell board (fst move) = Ok king
    /\ board_cell board (rook_corner move) = Ok rook
    /\ perform_castling move board = Ok castled
    /\ wf_board castled
    /\ board_cell castled (snd move) = Ok king
    /\ board_cell castled (rook_destination move) = Ok rook
    /\ board_cell castled (fst move) = Ok EMPTY
    /\ board_cell castled (rook_corner move) = Ok EMPTY
    /\ (forall q, in_bounds q ->
                  q <> fst move -> q <> snd move ->
                  q <> rook_corner move -> q <> rook_destination move ->
                  board_cell castled q = board_cell board q).
Proof.
  intros Hwf Hin. simpl in Hin.
  assert (Hcases :
            exists row, (row = 7 \/ row = 0)
                        /\ (move = ((row, 4), (row, 6)) \/ move = ((row, 4), (row, 2)))).
  { destruct Hin as [<-|[<-|[<-|[<-|[]]]]];
      [exists 7|exists 7|exists 0|exists 0]; auto. }
  destruct Hcases as (row & Hrow & [->| ->]);
    unfold rook_corner, rook_destination, perform_castling;
    cbn [fst snd Z.eqb Pos.eqb].
  - destruct (two_moves_cells board (row, 4) (row, 6) (row, 7) (row, 5) Hwf)
      as (king & rook & castled & H1 & H2 & H3 & H4 & H5 & H6 & H7 & H8 & H9);
      try (unfold in_bounds; simpl; lia); try (intros E; inversion E; lia).
    exists king, rook, castled.
    repeat (split; [assumption|]). assumption.
  - destruct (two_moves_cells board (row, 4) (row, 2) (row, 0) (row, 3) Hwf)
      as (king & rook & castled & H1 & H2 & H3 & H4 & H5 & H6 & H7 & H8 & H9);
      try (unfold in_bounds; simpl; lia); try (intros E; inversion E; lia).
    exists king, rook, castled.
    repeat (split; [assumption|]). assumption.
Qed.

Lemma perform_castling_moves_two_pieces_witness :
  exists king rook castled,
    board_cell kingside_position (fst ((7, 4), (7, 6))) = Ok king
    /\ board_cell kingside_position (rook_corner ((7, 4), (7, 6))) = Ok rook
    /\ perform_castling ((7, 4), (7, 6)) kingside_position = Ok castled
    /\ wf_board castled
    /\ board_cell castled (snd ((7, 4), (7, 6))) = Ok king
    /\ board_cell castled (rook_destination ((7, 4), (7, 6))) = Ok rook
    /\ board_cell castled (fst ((7, 4), (7, 6))) = Ok EMPTY
    /\ board_cell castled (rook_corner ((7, 4), (7, 6))) = Ok EMPTY
    /\ (forall q, in_bounds q ->
                  q <> fst ((7, 4), (7, 6)) -> q <> snd ((7, 4), (7, 6)) ->
                  q <> rook_corner ((7, 4), (7, 6)) ->
                  q <> rook_destination ((7, 4), (7, 6)) ->
                  board_cell castled q = board_cell kingside_position q).
Proof.
  apply (perform_castling_moves_two_pieces kingside_position ((7, 4), (7, 6))).
  - split; [reflexivity | repeat constructor].
  - simpl. left. reflexivity.
Defined.

(** ** What the validators accept *)

Lemma in_bounds_of_not_out (p : Position) : out_of_bounds p = false -> in_bounds p.
Proof.
  intros E. unfold out_of_bounds, BOARD_SIZE in E. apply negb_false_iff in E.
  repeat (apply andb_true_iff in E; destruct E as [E ?]).
  split; split; (apply Z.leb_le || apply Z.ltb_lt); assumption.
Qed.

(** A cell read that succeeds was made on the board. *)
Lemma piece_at_position_Ok (board : Board) (p : Position) (piece : ascii) :
  piece_at_position p board = Ok piece ->
  in_bounds p /\ board_cell board p = Ok piece.
Proof.
  unfold piece_at_position. destruct (out_of_bounds p) eqn:E; [discriminate|].
  intros Hcell. split; [apply in_bounds_of_not_out|]; assumption.
Qed.

Lemma read_is_true (board : Board) (p : Position) (expected : ascii) :
  (piece <- piece_at_position p board ;; Ok (Ascii.eqb piece expected)) = Ok true ->
  piece_at_position p board = Ok expected.
Proof.
  intros E. apply bind_Ok in E. destruct E as (piece & Hpiece & Heq).
  injection Heq as Heq. apply Ascii.eqb_eq in Heq. congruence.
Qed.

Lemma Ok_true (b : bool) : Ok b = Ok true -> b = true.
Proof. intros E. injection E as E. exact E. Qed.

(** What an accepted en-passant move looks like. *)
Lemma en_passant_accepted (move : Move) (board : Board) (whites_turn : bool)
    (en_passant_position : option Position) :
  is_valid_en_passant move board whites_turn en_passant_position = Ok true ->
  en_passant_position = Some (snd move)
  /\ fst (fst move) = (if whites_turn then 3 else 4)
  /\ fst (snd move) = (if whites_turn then 2 else 5)
  /\ piece_at_position (fst move) board
     = Ok (if whites_turn then WHITE_PAWN else BLACK_PAWN)
  /\ piece_at_position (fst (fst move), snd (snd move)) board
     = Ok (if whites_turn then BLACK_PAWN else WHITE_PAWN).
Proof.
  destruct move as [[fr fc] [tr tc]]. unfold is_valid_en_passant.
  destruct whites_turn; cbn [fst snd]; intros Hvalid;
    repeat (apply and_then_true in Hvalid; destruct Hvalid as [Hvalid ?]);
    repeat match goal with
           | E : Ok _ = Ok true |- _ => apply Ok_true in E
           | E : (_ =? _) = true |- _ => apply Z.eqb_eq in E
           | E : bind (piece_at_position _ _) _ = Ok true |- _ =>
               apply read_is_true in E
           end;
    (destruct en_passant_position as [target|]; [|discriminate]);
    match goal with
    | E : position_eqb target _ = true |- _ => apply position_eqb_eq in E
    end; subst; repeat split; try assumption; lia.
Qed.

(** X5: [is_valid_en_passant] returns True only when the target is set and
    is the destination, the pawn starts on row 3 (white) or row 4 (black)
    and lands one row ahead, the origin holds the mover's pawn, the square
    on the origin's rank and the destination's file holds an enemy pawn, and
    the destination's file differs from the origin's (by how much is not
    looked at). *)
Theorem en_passant_accepted_only (move : Move) (board : Board)
    (whites_turn : bool) (en_passant_position : option Position) :
  is_valid_en_passant move board whites_turn en_passant_position = Ok true ->
  en_passant_position = Some (snd move)
  /\ fst (fst move) = (if whites_turn then 3 else 4)
  /\ fst (snd move) = (if whites_turn then 2 else 5)
  /\ piece_at_position (fst move) board
     = Ok (if whites_turn then WHITE_PAWN else BLACK_PAWN)
  /\ piece_at_position (fst (fst move), snd (snd move)) board
     = Ok (if whites_turn then BLACK_PAWN else WHITE_PAWN)
  /\ snd (snd move) <> snd (fst move).
Proof.
  intros Hvalid.
  destruct (en_passant_accepted _ _ _ _ Hvalid) as (H1 & H2 & H3 & H4 & H5).
  repeat (split; [assumption|]).
  intros Hfile. rewrite Hfile in H5.
  replace (fst (fst move), snd (fst move)) with (fst move) in H5
    by (destruct move as [[? ?] ?]; reflexivity).
  rewrite H4 in H5. destruct whites_turn; discriminate H5.
Qed.

Lemma en_passant_accepted_only_witness :
  Some (2, 5) = Some (snd ((3, 4), (2, 5)))
  /\ fst (fst ((3, 4), (2, 5))) = (if true then 3 else 4)
  /\ fst (snd ((3, 4), (2, 5))) = (if true then 2 else 5)
  /\ piece_at_position (fst ((3, 4), (2, 5))) en_passant_example
     = Ok (if true then WHITE_PAWN else BLACK_PAWN)
  /\ piece_at_position (fst (fst ((3, 4), (2, 5))), snd (snd ((3, 4), (2, 5))))
       en_passant_example
     = Ok (if true then BLACK_PAWN else WHITE_PAWN)
  /\ snd (snd ((3, 4), (2, 5))) <> snd (fst ((3, 4), (2, 5))).
Proof.
  apply (en_passant_accepted_only ((3, 4), (2, 5)) en_passant_example true
           (Some (2, 5))).
  reflexivity.
Defined.

(** X6: on a well-formed board, performing an accepted en-passant move puts
    the mover's pawn on the destination, empties its origin and the square
    of the captured pawn (origin's rank, destination's file), and changes no
    other cell. *)
Theorem en_passant_removes_the_passed_pawn (move : Move) (board : Board)
    (whites_turn : bool) (en_passant_position : option Position) :
  wf_board board ->
  is_valid_en_passant move board whites_turn en_passant_position = Ok true ->
  exists taken,
    perform_en_passant move board whites_turn = Ok taken
    /\ wf_board taken
    /\ board_cell taken (snd move)
       = Ok (if whites_turn then WHITE_PAWN else BLACK_PAWN)
    /\ board_cell taken (fst move) = Ok EMPTY
    /\ board_cell taken (fst (fst move), snd (snd move)) = Ok EMPTY
    /\ (forall q, in_bounds q -> q <> fst move -> q <> snd move ->
                  q <> (fst (fst move), snd (snd move)) ->
                  board_cell taken q = board_cell board q).
Proof.
  intros Hwf Hvalid.
  destruct (en_passant_accepted _ _ _ _ Hvalid) as (_ & Hstart & Hland & Hown & Hother).
  apply piece_at_position_Ok in Hown. destruct Hown as [Hfrom Hown].
  apply piece_at_position_Ok in Hother. destruct Hother as [Hpassed Hother].
  destruct move as [[fr fc] [tr tc]]. cbn [fst snd] in *.
  assert (Hto : in_bounds (tr, tc))
    by (destruct Hpassed as [_ Hcol]; split; [destruct whites_turn|]; simpl in *; lia).
  assert (Hfile : tc <> fc).
  { intros ->. rewrite Hown in Hother. destruct whites_turn; discriminate. }
  unfold perform_en_passant, clear_position. cbn [fst snd].
  destruct (change_position_effect board (fr, tc) EMPTY Hwf Hpassed)
    as (cleared & -> & Hwf1 & Hat1 & Hframe1 & _).
  cbn [bind].
  destruct (update_board_cells cleared (fr, fc) (tr, tc) Hwf1 Hfrom Hto)
    as (piece & taken & Hpiece & Htaken & Hwf2 & Hat2 & Hempty2 & Hframe2).
  { intros E. inversion E. destruct whites_turn; lia. }
  rewrite Hframe1 in Hpiece by (assumption || (intros E; inversion E; lia)).
  assert (piece = if whites_turn then WHITE_PAWN else BLACK_PAWN) by congruence.
  subst piece. exists taken.
  split; [assumption|]. split; [assumption|]. split; [assumption|].
  split; [assumption|]. split.
  - rewrite Hframe2; try assumption;
      intros E; inversion E; destruct whites_turn; lia.
  - intros q Hq Hq1 Hq2 Hq3. rewrite Hframe2 by assumption.
    apply Hframe1; assumption.
Qed.

Lemma en_passant_removes_the_passed_pawn_witness :
  exists taken,
    perform_en_passant ((3, 4), (2, 5)) en_passant_example true = Ok taken
    /\ wf_board taken
    /\ board_cell taken (snd ((3, 4), (2, 5)))
       = Ok (if true then WHITE_PAWN else BLACK_PAWN)
    /\ board_cell taken (fst ((3, 4), (2, 5))) = Ok EMPTY
    /\ board_cell taken (fst (fst ((3, 4), (2, 5))), snd (snd ((3, 4), (2, 5))))
       = Ok EMPTY
    /\ (forall q, in_bounds q -> q <> fst ((3, 4), (2, 5)) ->
                  q <> snd ((3, 4), (2, 5)) ->
                  q <> (fst (fst ((3, 4), (2, 5))), snd (snd ((3, 4), (2, 5)))) ->
                  board_cell taken q = board_cell en_passant_example q).
Proof.
  apply (en_passant_removes_the_passed_pawn ((3, 4), (2, 5)) en_passant_example
           true (Some (2, 5))).
  - split; [reflexivity | repeat constructor].
  - reflexivity.
Defined.

Lemma or_else_true (a b : result bool) :
  a ||| b = Ok true -> a = Ok true \/ (a = Ok false /\ b = Ok true).
Proof.
  unfold or_else. destruct a as [[|]|e]; simpl; intros E;
    [left; reflexivity | right; auto | discriminate].
Qed.

(** X7: [is_move_valid] returns True only for a move between two different
    squares whose origin holds a piece of the side to move, whose
    destination does not hold a piece of that side, and whose destination is
    among the possible moves of the origin: it never accepts a null move, a
    move of an enemy piece or of an empty square, or the capture of an own
    piece. *)
Theorem accepted_move_is_sane `{Support} (move : Move) (board : Board)
    (whites_turn : bool) :
  is_move_valid move board whites_turn = Ok true ->
  fst move <> snd move
  /\ (exists piece,
         piece_at_position (fst move) board = Ok piece
         /\ is_current_players_piece piece whites_turn = true)
  /\ (exists target,
         piece_at_position (snd move) board = Ok target
         /\ is_current_players_piece target whites_turn = false)
  /\ (exists moves,
         get_possible_moves (fst move) board = Ok moves
         /\ position_in (snd move) moves = true).
Proof.
  unfold is_move_valid. intros Hvalid.
  apply and_then_true in Hvalid. destruct Hvalid as [Hvalid _].
  apply and_then_true in Hvalid. destruct Hvalid as [Hvalid Hmoves].
  apply and_then_true in Hvalid. destruct Hvalid as [Hvalid Htarget].
  apply and_then_true in Hvalid. destruct Hvalid as [Hvalid Hown].
  apply and_then_true in Hvalid. destruct Hvalid as [_ Hdistinct].
  apply Ok_true in Hdistinct.
  apply bind_Ok in Hmoves. destruct Hmoves as (moves & Hmoves & Hin).
  apply Ok_true in Hin.
  apply bind_Ok in Hown. destruct Hown as (piece & Hpiece & Hown).
  apply Ok_true in Hown.
  split; [|split; [|split]].
  - intros Hsame. rewrite Hsame in Hdistinct. unfold position_eqb in Hdistinct.
    rewrite !Z.eqb_refl in Hdistinct. discriminate Hdistinct.
  - eauto.
  - apply or_else_true in Htarget. destruct Htarget as [Hempty|[_ Henemy]].
    + apply read_is_true in Hempty.
      exists EMPTY. split; [assumption | destruct whites_turn; reflexivity].
    + apply not_true in Henemy. apply bind_Ok in Henemy.
      destruct Henemy as (target & Htarget & Hnot). injection Hnot as Hnot. eauto.
  - eauto.
Qed.

Lemma accepted_move_is_sane_witness :
  fst ((7, 6), (5, 5)) <> snd ((7, 6), (5, 5))
  /\ (exists piece,
         piece_at_position (fst ((7, 6), (5, 5))) initial_state = Ok piece
         /\ is_current_players_piece piece true = true)
  /\ (exists target,
         piece_at_position (snd ((7, 6), (5, 5))) initial_state = Ok target
         /\ is_current_players_piece target true = false)
  /\ (exists moves,
         @get_possible_moves spec_support (fst ((7, 6), (5, 5))) initial_state
         = Ok moves
         /\ position_in (snd ((7, 6), (5, 5))) moves = true).
Proof.
  apply (@accepted_move_is_sane spec_support ((7, 6), (5, 5)) initial_state true).
  vm_compute. reflexivity.
Defined.

Lemma move_in_In (move : Move) (moves : list Move) :
  move_in move moves = true -> In move moves.
Proof.
  unfold move_in. intros E. apply existsb_exists in E.
  destruct E as (m & Hin & Heq). unfold move_eqb in Heq.
  apply andb_true_iff in Heq. destruct Heq as [E1 E2].
  apply position_eqb_eq in E1, E2.
  replace move with m by (destruct move, m; cbn in *; congruence). exact Hin.
Qed.

Lemma is_EMPTY_true (p : Position) (board : Board) :
  is_EMPTY p board = Ok true -> piece_at_position p board = Ok EMPTY.
Proof. apply read_is_true. Qed.

(** What an accepted castle attempt looks like. *)
Lemma castle_attempt_accepted `{Support} (move : Move) (board : Board)
    (whites_turn : bool) (castling_info : list bool) :
  is_valid_castle_attempt move board whites_turn castling_info = Ok true ->
  castle_preconditions move board whites_turn castling_info.
Proof.
  destruct move as [from_position to_position].
  unfold is_valid_castle_attempt. intros Hvalid.
  apply bind_Ok in Hvalid. destruct Hvalid as (outer & Houter & Hvalid).
  destruct outer; [|discriminate].
  apply and_then_true in Houter. destruct Houter as [Houter Hmoved].
  apply and_then_true in Houter. destruct Houter as [Hking Hlegal].
  apply read_is_true in Hking. apply Ok_true in Hlegal. apply move_in_In in Hlegal.
  apply not_true in Hmoved.
  apply bind_Ok in Hvalid. destruct Hvalid as (side & Hside & Hvalid).
  destruct side as [[[[rook_position direction] squares] rook_moved] no_pieces_between].
  apply bind_Ok in Hvalid. destruct Hvalid as (inner & Hinner & Hvalid).
  destruct inner; [clear Hvalid|discriminate].
  apply and_then_true in Hinner. destruct Hinner as [Hinner Hbetween].
  apply and_then_true in Hinner. destruct Hinner as [Hrook Hrook_moved].
  apply read_is_true in Hrook. apply Ok_true in Hbetween, Hrook_moved.
  apply negb_true_iff in Hrook_moved. subst rook_moved no_pieces_between.
  unfold castle_preconditions. cbn [fst snd].
  split; [assumption|]. split; [assumption|]. split; [assumption|].
  simpl in Hlegal.
  destruct Hlegal as [E|[E|[E|[E|[]]]]]; injection E as <- <-;
    cbn [fst snd] in *;
    first [ change (4 <? 6) with true in Hside
          | change (4 <? 2) with false in Hside ];
    cbv iota in Hside;
    apply bind_Ok in Hside; destruct Hside as (flag & Hflag & Hside);
    apply bind_Ok in Hside; destruct Hside as (between & Hbetween & Hside);
    injection Hside as E1 E2 E3 E4 E5; subst;
    repeat (apply and_then_true in Hbetween; destruct Hbetween as [Hbetween ?]);
    repeat match goal with
           | E : is_EMPTY _ _ = Ok true |- _ => apply is_EMPTY_true in E
           end;
    (split; intros Hcol; [|try discriminate Hcol]; try discriminate Hcol);
    repeat split; assumption.
Qed.

(** X8: [is_valid_castle_attempt] returns True only when the conditions
    that do not involve check hold: the origin holds the side's king, the
    move is one of the four canonical castle moves, the king's flag and the
    flag of the rook on that side are False, that rook stands on its corner
    and every square strictly between king and rook is empty. *)
Theorem castle_accepted_only `{Support} (move : Move) (board : Board)
    (whites_turn : bool) (castling_info : list bool) :
  is_valid_castle_attempt move board whites_turn castling_info = Ok true ->
  castle_preconditions move board whites_turn castling_info.
Proof. apply castle_attempt_accepted. Qed.

Lemma castle_accepted_only_witness :
  castle_preconditions ((7, 4), (7, 6)) castle_example true [false; false; false].
Proof.
  apply (@castle_accepted_only spec_support ((7, 4), (7, 6)) castle_example true
           [false; false; false]).
  vm_compute. reflexivity.
Defined.

(** The value of [update_castling_info] on a triple. *)
Lemma update_castling_info_value (move : Move) (whites_turn : bool)
    (left king right : bool) :
  update_castling_info move whites_turn [left; king; right]
  = Ok [ left || position_eqb (fst move) ((if whites_turn then 7 else 0), 0);
         king || position_eqb (fst move) ((if whites_turn then 7 else 0), 4);
         right || position_eqb (fst move) ((if whites_turn then 7 else 0), 7) ].
Proof.
  unfold update_castling_info. cbn [length seq].
  set (row := if whites_turn then 7 else 0).
  destruct left, king, right;
    repeat first
      [ rewrite index_of_nat
      | progress cbn [update_castling_info_loop nth_error bind list_assign
                      firstn skipn app orb]
      | match goal with
        | |- context [position_eqb ?x ?y] => destruct (position_eqb x y)
        end ];
    reflexivity.
Qed.

(** X9: [update_castling_info] sets a flag exactly when it was set already
    or the move starts on that piece's home square of the mover's back rank
    (column 0, 4 or 7 of row 7 for white, row 0 for black); neither the
    destination nor the board is looked at. *)
Theorem castling_flag_follows_origin (move : Move) (whites_turn : bool)
    (left king right : bool) :
  update_castling_info move whites_turn [left; king; right]
  = Ok [ left || position_eqb (fst move) ((if whites_turn then 7 else 0), 0);
         king || position_eqb (fst move) ((if whites_turn then 7 else 0), 4);
         right || position_eqb (fst move) ((if whites_turn then 7 else 0), 7) ].
Proof. apply update_castling_info_value. Qed.

(** ** The search for a valid move *)

Lemma any_valid_move_true `{Support} (board : Board) (whites_turn : bool)
    (position : Position) (moves : list Position) :
  any_valid_move board whites_turn position moves = Ok true ->
  exists move,
    In move moves /\ is_move_valid (position, move) board whites_turn = Ok true.
Proof.
  induction moves as [|move rest IH]; cbn [any_valid_move]; [discriminate|].
  intros Hrun. apply bind_Ok in Hrun. destruct Hrun as ([|] & Hvalid & Hrun).
  - exists move. split; [left; reflexivity | assumption].
  - destruct (IH Hrun) as (found & Hin & Hfound).
    exists found. split; [right; assumption | assumption].
Qed.

Lemma any_valid_move_false `{Support} (board : Board) (whites_turn : bool)
    (position : Position) (moves : list Position) :
  any_valid_move board whites_turn position moves = Ok false ->
  forall move, In move moves ->
               is_move_valid (position, move) board whites_turn = Ok false.
Proof.
  induction moves as [|first rest IH]; cbn [any_valid_move]; [intros _ ? []|].
  intros Hrun. apply bind_Ok in Hrun. destruct Hrun as ([|] & Hvalid & Hrun);
    [discriminate|].
  intros move [<-|Hin]; [assumption | apply IH; assumption].
Qed.

Lemma can_move_from_true `{Support} (board : Board) (whites_turn : bool)
    (positions : list Position) :
  can_move_from board whites_turn positions = Ok true ->
  exists position move,
    In position positions
    /\ is_move_valid (position, move) board whites_turn = Ok true.
Proof.
  induction positions as [|position rest IH]; cbn [can_move_from]; [discriminate|].
  intros Hrun. apply bind_Ok in Hrun. destruct Hrun as (piece & Hpiece & Hrun).
  destruct (is_current_players_piece piece whites_turn).
  - apply bind_Ok in Hrun. destruct Hrun as (moves & Hmoves & Hrun).
    apply bind_Ok in Hrun. destruct Hrun as ([|] & Hfound & Hrun).
    + destruct (any_valid_move_true _ _ _ _ Hfound) as (move & _ & Hvalid).
      exists position, move. split; [left; reflexivity | assumption].
    + destruct (IH Hrun) as (p & m & Hin & Hvalid).
      exists p, m. split; [right; assumption | assumption].
  - destruct (IH Hrun) as (p & m & Hin & Hvalid).
    exists p, m. split; [right; assumption | assumption].
Qed.

Lemma can_move_from_false `{Support} (board : Board) (whites_turn : bool)
    (positions : list Position) :
  can_move_from board whites_turn positions = Ok false ->
  forall position, In position positions ->
    exists piece,
      piece_at_position position board = Ok piece
      /\ (is_current_players_piece piece whites_turn = true ->
          exists moves,
            get_possible_moves position board = Ok moves
            /\ forall move, In move moves ->
                 is_move_valid (position, move) board whites_turn = Ok false).
Proof.
  induction positions as [|first rest IH]; cbn [can_move_from]; [intros _ ? []|].
  intros Hrun. apply bind_Ok in Hrun. destruct Hrun as (piece & Hpiece & Hrun).
  destruct (is_current_players_piece piece whites_turn) eqn:Hown.
  - apply bind_Ok in Hrun. destruct Hrun as (moves & Hmoves & Hrun).
    apply bind_Ok in Hrun. destruct Hrun as ([|] & Hfound & Hrun); [discriminate|].
    intros position [<-|Hin]; [|apply IH; assumption].
    exists piece. split; [assumption|]. intros _. exists moves.
    split; [assumption|]. apply any_valid_move_false. assumption.
  - intros position [<-|Hin]; [|apply IH; assumption].
    exists piece. split; [assumption|]. congruence.
Qed.

Lemma in_all_positions (p : Position) :
  in_bounds p ->
  In p (list_prod (Py.range BOARD_SIZE) (Py.range BOARD_SIZE)).
Proof.
  intros [Hr Hc]. destruct p as [r c]. cbn [fst snd] in *.
  assert (Hrange : forall n, 0 <= n < 8 -> In n (Py.range BOARD_SIZE)).
  { intros n Hn. unfold Py.range. apply in_map_iff. exists (Z.to_nat n).
    split; [lia|]. apply in_seq. unfold BOARD_SIZE. lia. }
  apply in_prod; apply Hrange; assumption.
Qed.

Lemma all_positions_in_bounds (p : Position) :
  In p (list_prod (Py.range BOARD_SIZE) (Py.range BOARD_SIZE)) -> in_bounds p.
Proof.
  destruct p as [r c]. intros Hin. apply in_prod_iff in Hin.
  assert (Hrange : forall n, In n (Py.range BOARD_SIZE) -> 0 <= n < 8).
  { intros n Hn. unfold Py.range in Hn. apply in_map_iff in Hn.
    destruct Hn as (k & <- & Hk). apply in_seq in Hk.
    unfold BOARD_SIZE in Hk. change (Z.to_nat 8) with 8%nat in Hk. lia. }
  destruct Hin as [Hr Hc]. split; apply Hrange; assumption.
Qed.

Lemma position_in_In (p : Position) (moves : list Position) :
  position_in p moves = true -> In p moves.
Proof.
  unfold position_in. intros E. apply existsb_exists in E.
  destruct E as (m & Hin & Heq). apply position_eqb_eq in Heq. congruence.
Qed.

(** When [can_move] returns False, [is_move_valid] returns True for no move
    that starts on the board. *)
Lemma can_move_false_no_valid_move `{Support} (board : Board) (whites_turn : bool) :
  can_move board whites_turn = Ok false ->
  forall from_position to_position,
    in_bounds from_position ->
    is_move_valid (from_position, to_position) board whites_turn <> Ok true.
Proof.
  intros Hrun from_position to_position Hfrom Hvalid.
  destruct (can_move_from_false _ _ _ Hrun from_position
              (in_all_positions _ Hfrom)) as (piece & Hpiece & Hmoves).
  pose proof Hvalid as Hparts. unfold is_move_valid in Hparts. cbn [fst snd] in Hparts.
  apply and_then_true in Hparts. destruct Hparts as [Hparts _].
  apply and_then_true in Hparts. destruct Hparts as [Hparts Hin].
  apply and_then_true in Hparts. destruct Hparts as [Hparts _].
  apply and_then_true in Hparts. destruct Hparts as [_ Hown].
  rewrite Hpiece in Hown. cbn [bind] in Hown. apply Ok_true in Hown.
  destruct (Hmoves Hown) as (moves & Hgen & Hnone).
  rewrite Hgen in Hin. cbn [bind] in Hin. apply Ok_true in Hin.
  apply position_in_In in Hin. rewrite (Hnone _ Hin) in Hvalid. discriminate.
Qed.

(** X10: when [can_move] returns True there is a move that starts on the
    board and that [is_move_valid] accepts: the search never reports a move
    that does not exist. *)
Theorem can_move_finds_a_valid_move `{Support} (board : Board) (whites_turn : bool) :
  can_move board whites_turn = Ok true ->
  exists from_position to_position,
    in_bounds from_position
    /\ is_move_valid (from_position, to_position) board whites_turn = Ok true.
Proof.
  intros Hrun. destruct (can_move_from_true _ _ _ Hrun) as (p & m & Hin & Hvalid).
  exists p, m. split; [apply all_positions_in_bounds|]; assumption.
Qed.

Lemma can_move_finds_a_valid_move_witness :
  exists from_position to_position,
    in_bounds from_position
    /\ @is_move_valid spec_support (from_position, to_position) initial_state true
       = Ok true.
Proof.
  apply (@can_move_finds_a_valid_move spec_support initial_state true).
  vm_compute. reflexivity.
Defined.

(** X11: when [can_move] returns False, no move that starts on the board is
    accepted by [is_move_valid], whatever its destination: the search
    misses nothing; and [is_stalemate] is then the negation of
    [is_in_check]. *)
Theorem can_move_misses_nothing `{Support} (board : Board) (whites_turn : bool) :
  can_move board whites_turn = Ok false ->
  (forall from_position to_position,
      in_bounds from_position ->
      is_move_valid (from_position, to_position) board whites_turn <> Ok true)
  /\ is_stalemate board whites_turn = not_ (is_in_check board whites_turn).
Proof.
  intros Hrun. split; [apply can_move_false_no_valid_move; assumption|].
  unfold is_stalemate. rewrite Hrun.
  destruct (is_in_check board whites_turn) as [[|]|e]; reflexivity.
Qed.

Lemma can_move_misses_nothing_witness :
  (forall from_position to_position,
      in_bounds from_position ->
      @is_move_valid spec_support (from_position, to_position)
        fools_mate_position true <> Ok true)
  /\ @is_stalemate spec_support fools_mate_position true
     = not_ (@is_in_check spec_support fools_mate_position true).
Proof.
  apply (@can_move_misses_nothing spec_support fools_mate_position true).
  vm_compute. reflexivity.
Defined.

(** ** The end of the game *)

Lemma console_eta (c : console) :
  {| stdin := stdin c; stdout := stdout c ++ [] |} = c.
Proof. destruct c as [lines written]. cbn. rewrite app_nil_r. reflexivity. Qed.

(** X12: when the check detector and the search for a move both return,
    [check_game_over] returns True exactly when the side to move has no
    valid move; it then prints Checkmate if the side is in check and
    Stalemate if it is not.  When the side can move it prints that the side
    is in check, or nothing.  It reads no input. *)
Theorem check_game_over_classifies `{Support} (board : Board) (whites_turn : bool)
    (c : console) (in_check movable : bool) :
  is_in_check board whites_turn = Ok in_check ->
  can_move board whites_turn = Ok movable ->
  check_game_over board whites_turn c
  = (Return (negb movable),
     {| stdin := stdin c;
        stdout :=
          stdout c
          ++ (if movable then
                if in_check then
                  [Printed (if whites_turn then newline ++ "White is in check"
                            else newline ++ "Black is in check")]
                else []
              else
                [Printed (newline ++ (if in_check then "Checkmate" else "Stalemate"))])
     |}).
Proof.
  intros Hcheck Hmove. unfold check_game_over, io_bind, lift, is_stalemate.
  rewrite Hcheck, Hmove. destruct in_check, movable; cbn;
    try reflexivity.
  rewrite console_eta. reflexivity.
Qed.

Lemma check_game_over_classifies_witness :
  @check_game_over spec_support fools_mate_position true
    {| stdin := []; stdout := [] |}
  = (Return (negb false),
     {| stdin := stdin {| stdin := []; stdout := [] |};
        stdout :=
          stdout {| stdin := []; stdout := [] |}
          ++ (if false then
                if true then
                  [Printed (if true then newline ++ "White is in check"
                            else newline ++ "Black is in check")]
                else []
              else
                [Printed (newline ++ (if true then "Checkmate" else "Stalemate"))])
     |}).
Proof.
  apply (@check_game_over_classifies spec_support fools_mate_position true
           {| stdin := []; stdout := [] |} true false).
  - vm_compute. reflexivity.
  - vm_compute. reflexivity.
Defined.

(** ** Promotion *)

Lemma legal_piece (promotion : str) :
  str_in promotion promotion_pieces = true ->
  promotion = ["q"%char] \/ promotion = ["n"%char]
  \/ promotion = ["r"%char] \/ promotion = ["b"%char].
Proof.
  assert (Heq : forall a b, str_eqb a b = true -> a = b).
  { induction a as [|x a IH]; destruct b as [|y b]; cbn; try discriminate.
    - reflexivity.
    - intros E. apply andb_true_iff in E. destruct E as [E1 E2].
      apply Ascii.eqb_eq in E1. apply IH in E2. congruence. }
  unfold str_in, promotion_pieces. cbn [existsb]. intros E.
  repeat (apply orb_true_iff in E; destruct E as [E|E]);
    try discriminate E; apply Heq in E; auto.
Qed.

(** The answers up to the first legal one are read, each asked for with
    [ask_2] except the one at hand. *)
Lemma ask_until_legal_skips (bad : list str) (good : str) (rest : list str) :
  Forall (fun answer => str_in answer promotion_pieces = false) bad ->
  str_in good promotion_pieces = true ->
  forall written,
    ask_until_legal (hd good (bad ++ [good])) (tl (bad ++ [good]) ++ rest) written
    = (Return good,
       {| stdin := rest;
          stdout := written ++ repeat (Prompted ask_2) (length bad) |}).
Proof.
  intros Hbad Hgood. induction Hbad as [|answer bad Hanswer Hbad IH]; intros written.
  - cbn [app hd tl length repeat]. rewrite app_nil_r.
    destruct rest; cbn [ask_until_legal]; rewrite Hgood; reflexivity.
  - cbn [app hd tl length repeat].
    destruct (bad ++ [good]) as [|next more] eqn:E;
      [destruct bad; discriminate E|].
    cbn [app ask_until_legal]. rewrite Hanswer.
    specialize (IH (written ++ [Prompted ask_2])). cbn [hd tl] in IH.
    rewrite IH, <- app_assoc. reflexivity.
Qed.

(** The loop returns a legal piece only, and never gives lines back. *)
Lemma ask_until_legal_returns (promotion : str) (lines : list str)
    (written : list event) (answer : str) (c : console) :
  ask_until_legal promotion lines written = (Return answer, c) ->
  str_in answer promotion_pieces = true
  /\ (length (stdin c) <= length lines)%nat.
Proof.
  revert promotion written. induction lines as [|line rest IH];
    intros promotion written; cbn [ask_until_legal];
    destruct (str_in promotion promotion_pieces) eqn:Hlegal; intros Hrun.
  - injection Hrun as <- <-. auto.
  - discriminate.
  - injection Hrun as <- <-. auto.
  - apply IH in Hrun. cbn [length]. destruct Hrun. split; [assumption | lia].
Qed.

Lemma ask_until_legal_lines (promotion : str) (lines : list str)
    (written : list event) :
  (length (stdin (snd (ask_until_legal promotion lines written))) <= length lines)%nat.
Proof.
  revert promotion written. induction lines as [|line rest IH];
    intros promotion written; cbn [ask_until_legal];
    destruct (str_in promotion promotion_pieces); cbn [snd stdin length]; try lia.
  specialize (IH line (written ++ [Prompted ask_2])). lia.
Qed.

Lemma range_split (col : Z) :
  0 <= col < 8 ->
  exists after, Py.range BOARD_SIZE = Py.range col ++ col :: after.
Proof.
  intros Hcol. row_cases col; eexists; reflexivity.
Qed.

Lemma in_range (n col : Z) : In n (Py.range col) -> 0 <= n < col.
Proof.
  unfold Py.range. intros Hin. apply in_map_iff in Hin.
  destruct Hin as (k & <- & Hk). apply in_seq in Hk. lia.
Qed.

(** Columns that do not hold the pawn are passed over. *)
Lemma attempt_promotion_cols_skip (board : Board) (whites_turn : bool) (row : Z)
    (pawn : ascii) (before after : list Z) (c : console) :
  (forall col, In col before ->
     exists piece, piece_at_position (row, col) board = Ok piece /\ piece <> pawn) ->
  attempt_promotion_cols board whites_turn row pawn (before ++ after) c
  = attempt_promotion_cols board whites_turn row pawn after c.
Proof.
  induction before as [|col before IH]; intros Hbefore; [reflexivity|].
  cbn [app attempt_promotion_cols]. unfold io_bind at 1, lift at 1.
  destruct (Hbefore col (or_introl eq_refl)) as (piece & -> & Hpiece).
  cbn [of_result]. apply Ascii.eqb_neq in Hpiece. rewrite Hpiece.
  apply IH. intros col' Hin. apply Hbefore. right. assumption.
Qed.

Lemma read_not_pawn (board : Board) (row col : Z) (pawn : ascii) :
  wf_board board -> in_bounds (row, col) ->
  board_cell board (row, col) <> Ok pawn ->
  exists piece, piece_at_position (row, col) board = Ok piece /\ piece <> pawn.
Proof.
  intros Hwf Hin Hcell. rewrite piece_at_position_in_bounds by assumption.
  destruct (wf_board_cell board (row, col) Hwf Hin) as (piece & Hpiece).
  exists piece. split; [assumption | congruence].
Qed.

(** X13: on a well-formed board whose last rank for the mover (row 0 for
    white, row 7 for black) holds no pawn of the mover, [attempt_promotion]
    returns the board as it is, asks nothing and reads nothing. *)
Theorem no_pawn_no_promotion (board : Board) (whites_turn : bool) (c : console) :
  wf_board board ->
  (forall col, 0 <= col < 8 ->
     board_cell board ((if whites_turn then 0 else 7), col)
     <> Ok (if whites_turn then WHITE_PAWN else BLACK_PAWN)) ->
  attempt_promotion board whites_turn c = (Return board, c).
Proof.
  intros Hwf Hnone. unfold attempt_promotion.
  rewrite <- (app_nil_r (Py.range BOARD_SIZE)).
  destruct whites_turn; rewrite attempt_promotion_cols_skip;
    try reflexivity;
    intros col Hin; apply in_range in Hin; unfold BOARD_SIZE in Hin;
    apply read_not_pawn; try assumption;
    try (split; simpl; lia); apply (Hnone col Hin).
Qed.

Lemma no_pawn_no_promotion_witness :
  attempt_promotion initial_state true {| stdin := [["q"%char]]; stdout := [] |}
  = (Return initial_state, {| stdin := [["q"%char]]; stdout := [] |}).
Proof.
  apply (no_pawn_no_promotion initial_state true
           {| stdin := [["q"%char]]; stdout := [] |}).
  - split; [reflexivity | repeat constructor].
  - intros col Hcol.
    assert (C : col = 0 \/ col = 1 \/ col = 2 \/ col = 3 \/ col = 4 \/ col = 5
                \/ col = 6 \/ col = 7) by lia.
    repeat (destruct C as [C|C]; [subst col; discriminate|]).
    subst col; discriminate.
Defined.

(** X14: when the leftmost pawn of the mover on its last rank stands on
    column [col] and the lines to read start with answers that are not
    legal pieces followed by a legal one, [attempt_promotion] asks once
    with [ask_1] and once more with [ask_2] for every answer that is not
    legal, reads exactly these lines, and writes the legal answer (in upper
    case for white) on that pawn's square. *)
Theorem promotion_asks_until_legal (board : Board) (whites_turn : bool)
    (c : console) (col : Z) (bad : list str) (good : str) (rest : list str) :
  wf_board board ->
  0 <= col < 8 ->
  (forall col', 0 <= col' < col ->
     board_cell board ((if whites_turn then 0 else 7), col')
     <> Ok (if whites_turn then WHITE_PAWN else BLACK_PAWN)) ->
  board_cell board ((if whites_turn then 0 else 7), col)
  = Ok (if whites_turn then WHITE_PAWN else BLACK_PAWN) ->
  Forall (fun answer => str_in answer promotion_pieces = false) bad ->
  str_in good promotion_pieces = true ->
  stdin c = bad ++ good :: rest ->
  attempt_promotion board whites_turn c
  = (of_result
       (change_position board ((if whites_turn then 0 else 7), col)
          (if whites_turn then upper good else good)),
     {| stdin := rest;
        stdout := stdout c ++ Prompted ask_1
                    :: repeat (Prompted ask_2) (length bad) |}).
Proof.
  intros Hwf Hcol Hbefore Hpawn Hbad Hgood Hlines.
  destruct (range_split col Hcol) as (after & Hrange).
  unfold attempt_promotion.
  set (row := if whites_turn then 0 else 7) in *.
  set (pawn := if whites_turn then WHITE_PAWN else BLACK_PAWN) in *.
  assert (Hrow : 0 <= row < 8) by (subst row; destruct whites_turn; lia).
  replace (let '(row0, pawn0) :=
             if whites_turn then (0, WHITE_PAWN) else (7, BLACK_PAWN) in
           attempt_promotion_cols board whites_turn row0 pawn0
             (Py.range BOARD_SIZE))
    with (attempt_promotion_cols board whites_turn row pawn (Py.range BOARD_SIZE))
    by (subst row pawn; destruct whites_turn; reflexivity).
  rewrite Hrange, attempt_promotion_cols_skip.
  - cbn [attempt_promotion_cols]. unfold io_bind, lift, input.
    rewrite piece_at_position_in_bounds by (split; simpl; lia).
    rewrite Hpawn. cbn [of_result]. rewrite Ascii.eqb_refl.
    replace (stdin c) with (hd good (bad ++ [good]) :: tl (bad ++ [good]) ++ rest)
      by (rewrite Hlines; destruct bad; cbn; [reflexivity|];
          rewrite <- app_assoc; reflexivity).
    cbn [stdin stdout].
    rewrite (ask_until_legal_skips bad good rest Hbad Hgood).
    rewrite <- app_assoc. reflexivity.
  - intros col' Hin. apply in_range in Hin.
    apply read_not_pawn; try assumption; [split; simpl; lia|].
    apply Hbefore. assumption.
Qed.

Lemma promotion_asks_until_legal_witness :
  attempt_promotion promotion_example true
    {| stdin := [ ["k"%char]; []; ["n"%char]; ["e"%char] ]; stdout := [] |}
  = (of_result
       (change_position promotion_example ((if true then 0 else 7), 2)
          (if true then upper ["n"%char] else ["n"%char])),
     {| stdin := [ ["e"%char] ];
        stdout := stdout {| stdin := [ ["k"%char]; []; ["n"%char]; ["e"%char] ];
                            stdout := [] |}
                  ++ Prompted ask_1
                     :: repeat (Prompted ask_2) (length [ ["k"%char]; [] ]) |}).
Proof.
  apply (promotion_asks_until_legal promotion_example true
           {| stdin := [ ["k"%char]; []; ["n"%char]; ["e"%char] ]; stdout := [] |}
           2 [ ["k"%char]; [] ] ["n"%char] [ ["e"%char] ]).
  - split; [reflexivity | repeat constructor].
  - lia.
  - intros col' Hcol'. assert (C : col' = 0 \/ col' = 1) by lia.
    destruct C as [->| ->]; discriminate.
  - reflexivity.
  - repeat constructor.
  - reflexivity.
  - reflexivity.
Defined.

(** What [attempt_promotion_cols] can return: the board itself, or the
    board with a legal answer written on a square that held the pawn. *)
Lemma attempt_promotion_cols_result (board : Board) (whites_turn : bool) (row : Z)
    (pawn : ascii) (cols : list Z) (c c' : console) (promoted : Board) :
  attempt_promotion_cols board whites_turn row pawn cols c = (Return promoted, c') ->
  (length (stdin c') <= length (stdin c))%nat
  /\ (promoted = board
      \/ exists col answer,
           piece_at_position (row, col) board = Ok pawn
           /\ str_in answer promotion_pieces = true
           /\ change_position board (row, col)
                (if whites_turn then upper answer else answer) = Ok promoted).
Proof.
  induction cols as [|col cols IH]; cbn [attempt_promotion_cols].
  - unfold ret. intros E. injection E as <- <-. auto.
  - unfold io_bind at 1, lift at 1.
    destruct (piece_at_position (row, col) board) as [piece|e] eqn:Hpiece;
      cbn [of_result]; [|discriminate].
    destruct (Ascii.eqb_spec piece pawn) as [->|Hne]; [|exact IH].
    unfold io_bind, input, lift.
    destruct (stdin c) as [|line rest] eqn:Hlines; [discriminate|].
    cbn [stdin stdout].
    destruct (ask_until_legal line rest (stdout c ++ [Prompted ask_1]))
      as [[answer|x] c1] eqn:Hask; [|discriminate].
    apply ask_until_legal_returns in Hask. destruct Hask as [Hlegal Hlen].
    destruct (change_position board (row, col) _) as [changed|e] eqn:Hchange;
      cbn [of_result]; [|discriminate].
    intros E. injection E as <- <-.
    split; [cbn [length]; lia|]. right. exists col, answer. auto.
Qed.

Lemma attempt_promotion_returns (board : Board) (whites_turn : bool)
    (c c' : console) (promoted : Board) :
  wf_board board ->
  attempt_promotion board whites_turn c = (Return promoted, c') ->
  wf_board promoted
  /\ (length (stdin c') <= length (stdin c))%nat
  /\ forall q, in_bounds q ->
       board_cell promoted q = board_cell board q
       \/ (fst q = (if whites_turn then 0 else 7)
           /\ board_cell board q = Ok (if whites_turn then WHITE_PAWN else BLACK_PAWN)
           /\ exists piece,
                board_cell promoted q = Ok piece
                /\ In piece (if whites_turn
                             then [WHITE_QUEEN; WHITE_KNIGHT; WHITE_ROOK; WHITE_BISHOP]
                             else [BLACK_QUEEN; BLACK_KNIGHT; BLACK_ROOK; BLACK_BISHOP])).
Proof.
  intros Hwf Hrun. unfold attempt_promotion in Hrun.
  set (row := if whites_turn then 0 else 7) in *.
  set (pawn := if whites_turn then WHITE_PAWN else BLACK_PAWN) in *.
  assert (Hrun' : attempt_promotion_cols board whites_turn row pawn
                    (Py.range BOARD_SIZE) c = (Return promoted, c'))
    by (subst row pawn; destruct whites_turn; exact Hrun).
  apply attempt_promotion_cols_result in Hrun'.
  destruct Hrun' as [Hlen [->|(col & answer & Hpawn & Hlegal & Hchange)]];
    [auto|].
  apply piece_at_position_Ok in Hpawn. destruct Hpawn as [Hin Hpawn].
  assert (Hpiece : exists piece,
             (if whites_turn then upper answer else answer) = [piece]
             /\ In piece (if whites_turn
                          then [WHITE_QUEEN; WHITE_KNIGHT; WHITE_ROOK; WHITE_BISHOP]
                          else [BLACK_QUEEN; BLACK_KNIGHT; BLACK_ROOK; BLACK_BISHOP])).
  { apply legal_piece in Hlegal.
    destruct Hlegal as [->|[->|[->| ->]]]; destruct whites_turn;
      eexists; (split; [reflexivity|]); cbn; auto. }
  destruct Hpiece as (piece & Hanswer & Hside). rewrite Hanswer in Hchange.
  destruct (change_position_effect board (row, col) piece Hwf Hin)
    as (changed & Hchanged & Hwf' & Hat & Hframe & _).
  assert (changed = promoted) by congruence. subst changed.
  split; [assumption|]. split; [assumption|].
  intros q Hq. destruct q as [qr qc].
  destruct (Z.eq_dec qr row) as [->|Hr]; [destruct (Z.eq_dec qc col) as [->|Hc]|].
  - right. split; [reflexivity|]. split; [assumption|]. eauto.
  - left. apply Hframe; [assumption | congruence].
  - left. apply Hframe; [assumption | congruence].
Qed.



Lemma ask_until_legal_eof (bad : list str) :
  Forall (fun answer => str_in answer promotion_pieces = false) bad ->
  forall promotion written,
    str_in promotion promotion_pieces = false ->
    fst (ask_until_legal promotion bad written) = Raise EOFError.
Proof.
  intros Hbad. induction Hbad as [|answer bad Hanswer Hbad IH];
    intros promotion written Hpromotion; cbn [ask_until_legal];
    rewrite Hpromotion; [reflexivity|]. apply IH. assumption.
Qed.

(** X16: when the mover has a pawn on its last rank and the input ends
    before a legal piece is typed, [attempt_promotion] does not return: the
    EOFError of [input] leaves it. *)
Theorem promotion_needs_an_answer (board : Board) (whites_turn : bool)
    (c : console) (col : Z) :
  wf_board board ->
  0 <= col < 8 ->
  board_cell board ((if whites_turn then 0 else 7), col)
  = Ok (if whites_turn then WHITE_PAWN else BLACK_PAWN) ->
  Forall (fun answer => str_in answer promotion_pieces = false) (stdin c) ->
  fst (attempt_promotion board whites_turn c) = Raise EOFError.
Proof.
  intros Hwf Hcol Hpawn Hbad. unfold attempt_promotion.
  set (row := if whites_turn then 0 else 7) in *.
  set (pawn := if whites_turn then WHITE_PAWN else BLACK_PAWN) in *.
  assert (Hrow : 0 <= row < 8) by (subst row; destruct whites_turn; lia).
  replace (let '(row0, pawn0) :=
             if whites_turn then (0, WHITE_PAWN) else (7, BLACK_PAWN) in
           attempt_promotion_cols board whites_turn row0 pawn0
             (Py.range BOARD_SIZE))
    with (attempt_promotion_cols board whites_turn row pawn (Py.range BOARD_SIZE))
    by (subst row pawn; destruct whites_turn; reflexivity).
  assert (Hcols : forall cols,
             (forall k, In k cols -> 0 <= k < 8) -> In col cols ->
             fst (attempt_promotion_cols board whites_turn row pawn cols c)
             = Raise EOFError).
  { induction cols as [|k cols IH]; intros Hin8 Hin; [destruct Hin|].
    cbn [attempt_promotion_cols]. unfold io_bind at 1, lift at 1.
    rewrite piece_at_position_in_bounds
      by (split; simpl; [lia | apply Hin8; left; reflexivity]).
    destruct (wf_board_cell board (row, k) Hwf) as (piece & Hpiece);
      [split; simpl; [lia | apply Hin8; left; reflexivity]|].
    rewrite Hpiece. cbn [of_result].
    destruct (Ascii.eqb_spec piece pawn) as [->|Hne].
    - unfold io_bind, input. destruct (stdin c) as [|line rest] eqn:Hlines;
        [reflexivity|]. cbn [stdin stdout].
      inversion Hbad as [|? ? Hline Hrest]; subst.
      pose proof (ask_until_legal_eof rest Hrest line
                    (stdout c ++ [Prompted ask_1]) Hline) as Heof.
      destruct (ask_until_legal line rest (stdout c ++ [Prompted ask_1]))
        as [[answer|x] c1]; cbn [fst] in Heof; [discriminate|].
      injection Heof as ->. reflexivity.
    - apply IH; [intros k' Hk'; apply Hin8; right; assumption|].
      destruct Hin as [->|Hin]; [congruence | assumption]. }
  apply Hcols.
  - intros k Hk. apply in_range in Hk. unfold BOARD_SIZE in Hk. assumption.
  - destruct (range_split col Hcol) as (after & ->). apply in_or_app.
    right. left. reflexivity.
Qed.

Lemma promotion_needs_an_answer_witness :
  fst (attempt_promotion promotion_example true
         {| stdin := [ ["k"%char]; ["Q"%char] ]; stdout := [] |})
  = Raise EOFError.
Proof.
  apply (promotion_needs_an_answer promotion_example true
           {| stdin := [ ["k"%char]; ["Q"%char] ]; stdout := [] |} 2).
  - split; [reflexivity | repeat constructor].
  - lia.
  - reflexivity.
  - repeat constructor.
Defined.

(** ** Notation *)

Lemma spec_valid_move_positions (user_input : str) :
  SpecFormat.valid_move_format user_input = true ->
  SpecFormat.valid_position_format (Py.slice_to user_input 2) = true
  /\ SpecFormat.valid_position_format (Py.slice_from user_input (-2)) = true.
Proof.
  unfold SpecFormat.valid_move_format.
  destruct user_input as [|a [|b [|blank [|d [|e [|extra more]]]]]];
    try discriminate.
  intros E. apply andb_true_iff in E. destruct E as [E He].
  apply andb_true_iff in E. destruct E as [_ Ha]. split; assumption.
Qed.

(** Modelled from the spec: the format checks of the absent
    [chess_game_support] as an instance of the interface. *)
#[export] Instance spec_format : Format := {
  valid_position_format := SpecFormat.valid_position_format;
  valid_move_format := SpecFormat.valid_move_format;
  HELP_MESSAGE := SpecFormat.HELP_MESSAGE;
  valid_move_positions := spec_valid_move_positions
}.



Lemma slice_to_first_two (first middle last : str) :
  length first = 2%nat -> length last = 2%nat ->
  Py.slice_to (first ++ middle ++ last) 2 = first.
Proof.
  intros Hfirst Hlast. unfold Py.slice_to.
  assert (Hbound : Py.slice_bound (Py.len (first ++ middle ++ last)) 2 = 2%nat).
  { unfold Py.slice_bound, Py.len. rewrite !length_app, Hfirst, Hlast.
    change (2 <? 0) with false. cbv iota. rewrite Z.min_l by lia. reflexivity. }
  rewrite Hbound, firstn_app, Hfirst. cbn [Nat.sub].
  rewrite firstn_0, app_nil_r. apply firstn_all2. lia.
Qed.

Lemma slice_from_last_two (first middle last : str) :
  length first = 2%nat -> length last = 2%nat ->
  Py.slice_from (first ++ middle ++ last) (-2) = last.
Proof.
  intros Hfirst Hlast. unfold Py.slice_from. rewrite app_assoc.
  assert (Hbound : Py.slice_bound (Py.len ((first ++ middle) ++ last)) (-2)
                   = length (first ++ middle)).
  { unfold Py.slice_bound, Py.len. rewrite length_app, Hlast.
    change (-2 <? 0) with true. cbv iota. rewrite Z.max_r by lia. lia. }
  rewrite Hbound, skipn_app, skipn_all, Nat.sub_diag. reflexivity.
Qed.

(** X18: [process_move] reads the origin from the first two characters of
    the text and the destination from the last two, whatever stands between
    them (a blank, nothing, or more). *)
Theorem process_move_reads_both_ends `{Format} (first middle last : str) :
  length first = 2%nat ->
  length last = 2%nat ->
  process_move (first ++ middle ++ last)
  = (from_position <~ square_to_position first ;;
     to_position <~ square_to_position last ;;
     Return (from_position, to_position)).
Proof.
  intros Hfirst Hlast. unfold process_move.
  rewrite slice_to_first_two, slice_from_last_two by assumption. reflexivity.
Qed.

Lemma process_move_reads_both_ends_witness :
  @process_move spec_format
    (list_ascii_of_string "e2" ++ list_ascii_of_string " " ++ list_ascii_of_string "e4")
  = (from_position <~ @square_to_position spec_format (list_ascii_of_string "e2") ;;
     to_position <~ @square_to_position spec_format (list_ascii_of_string "e4") ;;
     Return (from_position, to_position)).
Proof.
  apply (@process_move_reads_both_ends spec_format (list_ascii_of_string "e2")
           (list_ascii_of_string " ") (list_ascii_of_string "e4")).
  - reflexivity.
  - reflexivity.
Defined.

(** ** Runs at the console *)

Lemma io_bind_Return {A B : Type} (m : io A) (k : A -> io B) (c c' : console)
    (b : B) :
  io_bind m k c = (Return b, c') ->
  exists a c1, m c = (Return a, c1) /\ k a c1 = (Return b, c').
Proof.
  unfold io_bind. destruct (m c) as [[a|x] c1]; intros E; [eauto | discriminate].
Qed.

Lemma lift_Return {A : Type} (m : outcome A) (c c' : console) (a : A) :
  lift m c = (Return a, c') -> m = Return a /\ c' = c.
Proof. unfold lift. intros E. injection E as -> <-. auto. Qed.

Lemma of_result_Return {A : Type} (r : result A) (a : A) :
  of_result r = Return a -> r = Ok a.
Proof. destruct r; cbn; intros E; [injection E as ->; reflexivity | discriminate]. Qed.

Lemma ret_Return {A : Type} (a b : A) (c c' : console) :
  ret a c = (Return b, c') -> b = a /\ c' = c.
Proof. unfold ret. intros E. injection E as <- <-. auto. Qed.

Lemma print_Return (text : string) (c c' : console) (u : unit) :
  print text c = (Return u, c') -> stdin c' = stdin c.
Proof. unfold print. intros E. injection E as _ <-. reflexivity. Qed.

Lemma input_Return (prompt : string) (c c' : console) (line : str) :
  input prompt c = (Return line, c') -> stdin c = line :: stdin c'.
Proof.
  unfold input. destruct (stdin c) as [|first rest]; intros E; [discriminate|].
  injection E as <- <-. reflexivity.
Qed.

Lemma print_rows_Return (rows : list str) (row_num : Z) (c c' : console) (u : unit) :
  print_rows rows row_num c = (Return u, c') -> stdin c' = stdin c.
Proof.
  revert row_num c. induction rows as [|row rows IH]; intros row_num c;
    cbn [print_rows]; intros Hrun.
  - apply ret_Return in Hrun. destruct Hrun as [_ ->]. reflexivity.
  - apply io_bind_Return in Hrun. destruct Hrun as (u1 & c1 & Hprint & Hrun).
    apply print_Return in Hprint. apply IH in Hrun. congruence.
Qed.

Lemma print_board_Return (board : Board) (c c' : console) (u : unit) :
  print_board board c = (Return u, c') -> stdin c' = stdin c.
Proof.
  unfold print_board. intros Hrun.
  apply io_bind_Return in Hrun. destruct Hrun as (u1 & c1 & Hrows & Hrun).
  apply print_rows_Return in Hrows. apply print_Return in Hrun. congruence.
Qed.

Lemma check_game_over_Return `{Support} (board : Board) (whites_turn : bool)
    (c c' : console) (over : bool) :
  check_game_over board whites_turn c = (Return over, c') -> stdin c' = stdin c.
Proof.
  unfold check_game_over, io_bind, lift.
  destruct (is_in_check board whites_turn) as [[|]|e]; cbn [of_result];
    try discriminate.
  - destruct (can_move board whites_turn) as [[|]|e]; cbn [of_result];
      try discriminate; cbn; intros E; injection E as _ <-; reflexivity.
  - destruct (is_stalemate board whites_turn) as [[|]|e]; cbn [of_result];
      try discriminate; cbn; intros E; injection E as _ <-; reflexivity.
Qed.

(** ** One turn of the game *)

(** How a turn that does not raise ends: the loop is left with the
    variables as they were; or the turn continues with them as they were,
    having read a line; or a move was performed. *)
Lemma main_turn_run `{Support} `{Format} (game : Game.state) (c c' : console)
    (t : turn) :
  main_turn game c = (Return t, c') ->
  (t = Break game /\ (length (stdin c') <= length (stdin c))%nat)
  \/ (t = Continue game /\ (length (stdin c') < length (stdin c))%nat)
  \/ (exists move moved promoted updated target c1 c2,
        (length (stdin c') < length (stdin c))%nat
        /\ perform_move move game (movers_castling_info game) = Ok (Some moved)
        /\ attempt_promotion moved (Game.whites_turn game) c1 = (Return promoted, c2)
        /\ update_castling_info move (Game.whites_turn game)
             (movers_castling_info game) = Ok updated
        /\ update_en_passant_position move promoted (Game.whites_turn game)
           = Ok target
        /\ t = Continue
                 {| Game.board := promoted;
                    Game.whites_turn := negb (Game.whites_turn game);
                    Game.en_passant_position := target;
                    Game.castling_info_white :=
                      if Game.whites_turn game then updated
                      else Game.castling_info_white game;
                    Game.castling_info_black :=
                      if Game.whites_turn game then Game.castling_info_black game
                      else updated |}).
Proof.
  unfold main_turn, movers_castling_info. intros Hrun.
  apply io_bind_Return in Hrun. destruct Hrun as (u & c1 & Hshown & Hrun).
  apply print_board_Return in Hshown.
  apply io_bind_Return in Hrun. destruct Hrun as (over & c2 & Hover & Hrun).
  apply check_game_over_Return in Hover.
  destruct over.
  { apply ret_Return in Hrun. destruct Hrun as [-> ->]. left.
    split; [reflexivity | rewrite Hover, Hshown; lia]. }
  apply io_bind_Return in Hrun. destruct Hrun as (line & c3 & Hline & Hrun).
  apply input_Return in Hline.
  assert (Hread : (length (stdin c3) < length (stdin c))%nat)
    by (rewrite <- Hshown, <- Hover, Hline; cbn [length]; lia).
  destruct (str_eqb line ["h"%char] || str_eqb line ["H"%char]).
  { apply io_bind_Return in Hrun. destruct Hrun as (u1 & c4 & Hhelp & Hrun).
    apply print_Return in Hhelp. apply ret_Return in Hrun. destruct Hrun as [-> ->].
    right. left. split; [reflexivity | rewrite Hhelp; assumption]. }
  destruct (str_eqb line ["q"%char] || str_eqb line ["Q"%char]).
  { apply io_bind_Return in Hrun. destruct Hrun as (answer & c4 & Hanswer & Hrun).
    apply input_Return in Hanswer.
    assert (Hread' : (length (stdin c4) < length (stdin c))%nat)
      by (rewrite Hanswer in Hread; cbn [length] in Hread; lia).
    destruct (str_eqb answer ["y"%char] || str_eqb answer ["Y"%char]);
      apply ret_Return in Hrun; destruct Hrun as [-> ->];
      [left | right; left]; split; (reflexivity || lia). }
  destruct (negb (valid_move_format line)).
  { apply io_bind_Return in Hrun. destruct Hrun as (u1 & c4 & Hsaid & Hrun).
    apply print_Return in Hsaid. apply ret_Return in Hrun. destruct Hrun as [-> ->].
    right. left. split; [reflexivity | rewrite Hsaid; assumption]. }
  apply io_bind_Return in Hrun. destruct Hrun as (parsed & c4 & Hparsed & Hrun).
  apply lift_Return in Hparsed. destruct Hparsed as [Hparsed ->].
  destruct parsed as [[from_position|] [to_position|]];
    try (apply lift_Return in Hrun; destruct Hrun as [Hrun _]; discriminate Hrun).
  apply io_bind_Return in Hrun. destruct Hrun as (performed & c4 & Hperformed & Hrun).
  apply lift_Return in Hperformed. destruct Hperformed as [Hperformed ->].
  apply of_result_Return in Hperformed.
  destruct performed as [moved|].
  2:{ apply io_bind_Return in Hrun. destruct Hrun as (u1 & c4 & Hsaid & Hrun).
      apply print_Return in Hsaid. apply ret_Return in Hrun. destruct Hrun as [-> ->].
      right. left. split; [reflexivity | rewrite Hsaid; assumption]. }
  apply io_bind_Return in Hrun. destruct Hrun as (promoted & c4 & Hpromoted & Hrun).
  apply io_bind_Return in Hrun. destruct Hrun as (updated & c5 & Hupdated & Hrun).
  apply lift_Return in Hupdated. destruct Hupdated as [Hupdated ->].
  apply of_result_Return in Hupdated.
  apply io_bind_Return in Hrun. destruct Hrun as (target & c5 & Htarget & Hrun).
  apply lift_Return in Htarget. destruct Htarget as [Htarget ->].
  apply of_result_Return in Htarget.
  apply ret_Return in Hrun. destruct Hrun as [-> ->].
  right. right.
  exists (from_position, to_position), moved, promoted, updated, target, c3, c4.
  split.
  { pose proof (attempt_promotion_cols_result) as Hcols.
    unfold attempt_promotion in Hpromoted.
    destruct (Game.whites_turn game); apply Hcols in Hpromoted;
      destruct Hpromoted as [Hlen _]; lia. }
  repeat split; assumption.
Qed.

Lemma is_move_valid_in_bounds `{Support} (move : Move) (board : Board)
    (whites_turn : bool) :
  is_move_valid move board whites_turn = Ok true ->
  in_bounds (fst move) /\ in_bounds (snd move).
Proof.
  unfold is_move_valid. intros Hvalid.
  apply and_then_true in Hvalid. destruct Hvalid as [Hvalid _].
  apply and_then_true in Hvalid. destruct Hvalid as [Hvalid _].
  apply and_then_true in Hvalid. destruct Hvalid as [Hvalid Htarget].
  apply and_then_true in Hvalid. destruct Hvalid as [_ Hown].
  apply bind_Ok in Hown. destruct Hown as (piece & Hpiece & _).
  apply piece_at_position_Ok in Hpiece. split; [apply Hpiece|].
  apply or_else_true in Htarget. destruct Htarget as [Hempty|[Hempty _]];
    apply bind_Ok in Hempty; destruct Hempty as (target & Htarget & _);
    apply piece_at_position_Ok in Htarget; apply Htarget.
Qed.

(** Whichever of the three ways a move is performed, a well-formed board
    stays well formed. *)
Lemma perform_move_wf `{Support} (move : Move) (game : Game.state)
    (castling_info : list bool) (moved : Board) :
  wf_board (Game.board game) ->
  perform_move move game castling_info = Ok (Some moved) ->
  wf_board moved.
Proof.
  intros Hwf. unfold perform_move. intros Hrun.
  apply bind_Ok in Hrun. destruct Hrun as (valid & Hvalid & Hrun).
  destruct valid.
  { apply is_move_valid_in_bounds in Hvalid. destruct Hvalid as [Hfrom Hto].
    destruct (update_board_wf _ move Hwf Hfrom Hto) as (b & Hb & Hwfb).
    rewrite Hb in Hrun. cbn [bind] in Hrun. congruence. }
  apply bind_Ok in Hrun. destruct Hrun as (en_passant & Hpassant & Hrun).
  destruct en_passant.
  { apply en_passant_accepted in Hpassant.
    destruct Hpassant as (_ & Hstart & Hland & Hown & Hother).
    apply piece_at_position_Ok in Hown. destruct Hown as [Hfrom _].
    apply piece_at_position_Ok in Hother. destruct Hother as [Hpassed _].
    assert (Hto : in_bounds (snd move)).
    { destruct Hpassed as [_ Hcol]. cbn [fst snd] in Hcol.
      split; [destruct (Game.whites_turn game); lia | assumption]. }
    unfold perform_en_passant, clear_position in Hrun.
    destruct (change_position_effect _ _ EMPTY Hwf Hpassed)
      as (cleared & Hcleared & Hwf1 & _).
    rewrite Hcleared in Hrun. cbn [bind] in Hrun.
    destruct (update_board_wf cleared move Hwf1 Hfrom Hto) as (b & Hb & Hwfb).
    rewrite Hb in Hrun. cbn [bind] in Hrun. congruence. }
  apply bind_Ok in Hrun. destruct Hrun as (castle & Hcastle & Hrun).
  destruct castle; [|discriminate].
  apply castle_attempt_accepted in Hcastle. destruct Hcastle as (_ & Hlegal & _).
  assert (Hends : in_bounds (fst move) /\ in_bounds (snd move)).
  { simpl in Hlegal. destruct Hlegal as [<-|[<-|[<-|[<-|[]]]]];
      split; split; simpl; lia. }
  destruct Hends as [Hfrom Hto].
  destruct (update_board_wf _ move Hwf Hfrom Hto) as (b1 & Hb1 & Hwf1).
  unfold perform_castling in Hrun.
  destruct (snd move) as [kings_row kings_end_col] eqn:Eto.
  rewrite Hb1 in Hrun. cbn [bind] in Hrun.
  destruct Hto as [Hrow _]. cbn [fst] in Hrow.
  destruct (kings_end_col =? 6);
    match type of Hrun with
    | bind (update_board b1 ?rooks_move) _ = _ =>
        destruct (update_board_wf b1 rooks_move Hwf1) as (b2 & Hb2 & Hwf2);
        [split; simpl; lia | split; simpl; lia |];
        rewrite Hb2 in Hrun; cbn [bind] in Hrun; congruence
    end.
Qed.

Lemma update_castling_info_length (move : Move) (whites_turn : bool)
    (castling_info updated : list bool) :
  length castling_info = 3%nat ->
  update_castling_info move whites_turn castling_info = Ok updated ->
  length updated = 3%nat.
Proof.
  intros Hlen. destruct castling_info as [|a [|b [|d [|? ?]]]]; try discriminate.
  rewrite update_castling_info_value. intros E. injection E as <-. reflexivity.
Qed.

(** A turn keeps the shape of the local variables. *)
Lemma main_turn_ok `{Support} `{Format} (game : Game.state) (c c' : console)
    (t : turn) :
  game_ok game ->
  main_turn game c = (Return t, c') ->
  game_ok (match t with Continue game' => game' | Break game' => game' end).
Proof.
  intros Hok Hrun. apply main_turn_run in Hrun.
  destruct Hrun as [[-> _]|[[-> _]|Hrun]]; try assumption.
  destruct Hrun as (move & moved & promoted & updated & target & c1 & c2
                    & _ & Hmoved & Hpromoted & Hupdated & _ & ->).
  destruct Hok as (Hwf & Hwhite & Hblack).
  apply perform_move_wf in Hmoved; [|assumption].
  apply attempt_promotion_returns in Hpromoted; [|assumption].
  destruct Hpromoted as [Hwf' _].
  unfold movers_castling_info in Hupdated.
  split; [assumption|]. cbn.
  destruct (Game.whites_turn game); split; try assumption;
    (eapply update_castling_info_length; [|exact Hupdated]); assumption.
Qed.

(** ** The whole game *)

Lemma main_loop_ends `{Support} `{Format} (turns : nat) :
  forall game c,
    (length (stdin c) < turns)%nat ->
    exists result, main_loop turns game c = Some result.
Proof.
  induction turns as [|turns IH]; intros game c Hlines; [lia|].
  cbn [main_loop].
  destruct (main_turn game c) as [[[game'|game']|x] c'] eqn:Hturn; eauto.
  apply IH. apply main_turn_run in Hturn.
  destruct Hturn as [[E _]|[[_ Hlen]|Hturn]]; [discriminate | lia |].
  destruct Hturn as (? & ? & ? & ? & ? & ? & ? & Hlen & _). lia.
Qed.

Lemma main_loop_ok `{Support} `{Format} (turns : nat) :
  forall game c result c',
    game_ok game ->
    main_loop turns game c = Some (Return result, c') ->
    game_ok result.
Proof.
  induction turns as [|turns IH]; intros game c result c' Hok; [discriminate|].
  cbn [main_loop].
  destruct (main_turn game c) as [[[game'|game']|x] c1] eqn:Hturn.
  - apply IH. apply (main_turn_ok game c c1 (Continue game') Hok Hturn).
  - intros E. injection E as <- <-.
    apply (main_turn_ok game c c1 (Break game') Hok Hturn).
  - discriminate.
Qed.

Lemma new_game_ok : game_ok new_game.
Proof.
  split; [split; [reflexivity | repeat constructor] | split; reflexivity].
Qed.

(** X19: on every finite input [main] ends, by leaving the loop or by an
    exception (of which the EOFError at the end of the input is one): every
    turn of the loop that goes on to the next has read at least one line,
    and no line is ever given back, so the loop runs at most once more than
    there are lines. *)
Theorem main_always_ends `{Support} `{Format} (lines : list str) :
  exists result, main lines = Some result.
Proof. unfold main. apply main_loop_ends. cbn [stdin]. lia. Qed.

(** X20: when [main] leaves its loop, whatever was typed and whatever the
    move generator and the check detector are, the board is well formed (8
    rows of 8 characters) and the castling flags of both sides are still
    triples. *)
Theorem main_keeps_the_board_well_formed `{Support} `{Format} (lines : list str)
    (game : Game.state) :
  option_map fst (main lines) = Some (Return game) ->
  game_ok game.
Proof.
  unfold main. intros Hrun.
  destruct (main_loop _ _ _) as [[result c]|] eqn:Hloop; [|discriminate].
  cbn in Hrun. injection Hrun as ->.
  eapply main_loop_ok; [apply new_game_ok | exact Hloop].
Qed.

Lemma main_keeps_the_board_well_formed_witness :
  game_ok {| Game.board := board_of [ "rnbqkbnr"; "pppppppp"; "........";
                                      "........"; "....P..."; "........";
                                      "PPPP.PPP"; "RNBQKBNR" ]%string;
             Game.whites_turn := false;
             Game.en_passant_position := Some (5, 4);
             Game.castling_info_white := [false; false; false];
             Game.castling_info_black := [false; false; false] |}.
Proof.
  apply (@main_keeps_the_board_well_formed spec_support spec_format
           [ list_ascii_of_string "e2 e4"; list_ascii_of_string "q";
             list_ascii_of_string "y" ]).
  vm_compute. reflexivity.
Defined.

(** X21: a turn of the loop of [main] that does not raise either leaves the
    local variables as they were (the game is over, the player asked for
    help or to quit, or the move was refused), or performs a move: then the
    side to move flips, the castling flags of the other side are untouched,
    those of the mover are what [update_castling_info] returns, the board
    is the performed move's after promotion, and the en-passant target is
    what [update_en_passant_position] returns on that board. *)
Theorem turn_keeps_or_commits `{Support} `{Format} (game : Game.state)
    (c : console) (t : turn) :
  fst (main_turn game c) = Return t ->
  (forall game', t = Break game' -> game' = game)
  /\ (forall game', t = Continue game' ->
        game' = game
        \/ (Game.whites_turn game' = negb (Game.whites_turn game)
            /\ (if Game.whites_turn game
                then Game.castling_info_black game' = Game.castling_info_black game
                else Game.castling_info_white game' = Game.castling_info_white game)
            /\ exists move moved,
                 perform_move move game (movers_castling_info game) = Ok (Some moved)
                 /\ update_castling_info move (Game.whites_turn game)
                      (movers_castling_info game)
                    = Ok (if Game.whites_turn game
                          then Game.castling_info_white game'
                          else Game.castling_info_black game')
                 /\ update_en_passant_position move (Game.board game')
                      (Game.whites_turn game)
                    = Ok (Game.en_passant_position game')
                 /\ exists c1 c2,
                      attempt_promotion moved (Game.whites_turn game) c1
                      = (Return (Game.board game'), c2))).
Proof.
  intros Hrun. destruct (main_turn game c) as [out c'] eqn:Hturn.
  cbn [fst] in Hrun. subst out. apply main_turn_run in Hturn.
  destruct Hturn as [[-> _]|[[-> _]|Hturn]].
  - split; [intros ? E; congruence | intros ? E; discriminate E].
  - split; [intros ? E; discriminate E | intros ? E; left; congruence].
  - destruct Hturn as (move & moved & promoted & updated & target & c1 & c2
                       & _ & Hmoved & Hpromoted & Hupdated & Htarget & ->).
    split; [intros ? E; discriminate E|]. intros game' E. injection E as <-.
    right. cbn. split; [reflexivity|].
    split; [destruct (Game.whites_turn game); reflexivity|].
    exists move, moved. split; [assumption|].
    split; [destruct (Game.whites_turn game); assumption|].
    split; [assumption|]. eauto.
Qed.

Lemma turn_keeps_or_commits_witness :
  (forall game', Continue game_after_e4 = Break game' -> game' = new_game)
  /\ (forall game', Continue game_after_e4 = Continue game' ->
        game' = new_game
        \/ (Game.whites_turn game' = negb (Game.whites_turn new_game)
            /\ (if Game.whites_turn new_game
                then Game.castling_info_black game' = Game.castling_info_black new_game
                else Game.castling_info_white game' = Game.castling_info_white new_game)
            /\ exists move moved,
                 @perform_move spec_support move new_game
                   (movers_castling_info new_game) = Ok (Some moved)
                 /\ update_castling_info move (Game.whites_turn new_game)
                      (movers_castling_info new_game)
                    = Ok (if Game.whites_turn new_game
                          then Game.castling_info_white game'
                          else Game.castling_info_black game')
                 /\ update_en_passant_position move (Game.board game')
                      (Game.whites_turn new_game)
                    = Ok (Game.en_passant_position game')
                 /\ exists c1 c2,
                      attempt_promotion moved (Game.whites_turn new_game) c1
                      = (Return (Game.board game'), c2))).
Proof.
  apply (@turn_keeps_or_commits spec_support spec_format new_game
           {| stdin := [list_ascii_of_string "e2 e4"]; stdout := [] |}
           (Continue game_after_e4)).
  vm_compute. reflexivity.
Defined.



(** ** A whole game *)

(** Scholar's mate typed at the console: the seven moves are performed, the
    input is used up, and the last thing written is Checkmate. *)
Example scholars_mate_is_played :
  option_map
    (fun run => (stdin (snd run), last (stdout (snd run)) (Printed "")))
    (@main spec_support spec_format
       (map list_ascii_of_string
          [ "e2 e4"; "e7 e5"; "f1 c4"; "b8 c6"; "d1 h5"; "g8 f6"; "h5 f7" ]%string))
  = Some ([], Printed (newline ++ "Checkmate")).
Proof. vm_compute. reflexivity. Qed.

(** ** The branch of [main] that is not reached *)

(** A text accepted as a move parses to two positions whenever it parses:
    [process_move] returns no [None] endpoint to [main]. *)
Lemma process_move_parses_both `{Format} (user_input : str)
    (from_position to_position : option Position) :
  valid_move_format user_input = true ->
  process_move user_input = Return (from_position, to_position) ->
  (exists position, from_position = Some position)
  /\ (exists position, to_position = Some position).
Proof.
  intros Hvalid. apply valid_move_positions in Hvalid.
  destruct Hvalid as [Hfirst Hlast].
  unfold process_move, square_to_position. rewrite Hfirst, Hlast.
  destruct (Py.index (Py.slice_to user_input 2) 0) as [file1|e];
    cbn [of_result outcome_bind]; [|discriminate].
  destruct (Py.index (Py.slice_to user_input 2) 1) as [rank1|e];
    cbn [of_result outcome_bind]; [|discriminate].
  destruct (int rank1) as [digit1|x]; cbn [outcome_bind]; [|discriminate].
  destruct (Py.index (Py.slice_from user_input (-2)) 0) as [file2|e];
    cbn [of_result outcome_bind]; [|discriminate].
  destruct (Py.index (Py.slice_from user_input (-2)) 1) as [rank2|e];
    cbn [of_result outcome_bind]; [|discriminate].
  destruct (int rank2) as [digit2|x]; cbn [outcome_bind]; [|discriminate].
  intros E. injection E as <- <-. eauto.
Qed.
